(** * Console contact-manager bot: a shallow embedding and its properties

    The development follows [Consol_bot_v.3.0.py]: the field classes
    ([Phone], [Birthday]), the contact [Record], the [AddressBook] with its
    weekly-birthday query and its persistence, and the command handlers
    wrapped by [input_error].

    Conventions of the model.
    - A Python [str] is a [string]; its characters are the code points
      below 256, among which the decimal digits (the class [\d]) are exactly
      ['0'..'9'].
    - Exceptions are values of [exn]; a computation that may raise returns a
      [result].  Code that mutates objects and may raise runs in the monad
      [M S], which keeps the state reached when the exception left.
    - The standard-library pieces the program calls ([re.match],
      [datetime.strptime], [date.replace], [date.strftime], date
      subtraction) are written out from their behaviour in CPython on
      Linux; there [strftime] is the one of the C library, which prints
      [%d] and [%m] with two digits and [%Y] as the plain decimal number,
      with no leading zeros. *)

From Stdlib Require Import Ascii String ZArith Lia.
From stdpp Require Import base numbers strings list.

Open Scope string_scope.
Open Scope list_scope.
Open Scope Z_scope.

(** ** Exceptions and results *)

Inductive exn : Type :=
| ValueError (text : string)
| IndexError (text : string)
| KeyError (text : string)
| OSError (text : string).

(** [str(e)], the text an exception carries ([raise ValueError] carries the
    empty text). *)
Definition exn_str (e : exn) : string :=
  match e with
  | ValueError t | IndexError t | KeyError t | OSError t => t
  end.

Inductive result (A : Type) : Type :=
| Ok (a : A)
| Raise (e : exn).
Arguments Ok {A} a.
Arguments Raise {A} e.

Definition is_Ok {A} (r : result A) : bool :=
  match r with Ok _ => true | Raise _ => false end.

(** State with exceptions: the state survives a raise, as the mutations a
    Python method made before raising do. *)
Definition M (S A : Type) : Type := S → result A * S.

Definition ret {S A} (a : A) : M S A := λ s, (Ok a, s).
Definition bind {S A B} (m : M S A) (k : A → M S B) : M S B :=
  λ s, match m s with
       | (Ok a, s') => k a s'
       | (Raise e, s') => (Raise e, s')
       end.
Definition raise {S A} (e : exn) : M S A := λ s, (Raise e, s).
Definition get {S} : M S S := λ s, (Ok s, s).
Definition put {S} (s : S) : M S unit := λ _, (Ok tt, s).
Definition modify {S} (f : S → S) : M S unit := λ s, (Ok tt, f s).
Definition lift {S A} (r : result A) : M S A := λ s, (r, s).

Global Instance M_ret {S} : MRet (M S) := λ A, ret.
Global Instance M_bind {S} : MBind (M S) := λ A B k m, bind m k.

(** ** Strings *)

Definition LF : ascii := "010"%char.

Definition in_range (lo hi : ascii) (c : ascii) : bool :=
  ((N_of_ascii lo <=? N_of_ascii c) && (N_of_ascii c <=? N_of_ascii hi))%N.

(** The class [\d]. *)
Definition is_digit (c : ascii) : bool := in_range "0" "9" c.

Fixpoint all_chars (p : ascii → bool) (s : string) : bool :=
  match s with
  | EmptyString => true
  | String c s' => p c && all_chars p s'
  end.

Fixpoint contains (needle hay : string) : bool :=
  String.prefix needle hay ||
  match hay with
  | EmptyString => false
  | String _ hay' => contains needle hay'
  end.

Fixpoint join (sep : string) (l : list string) : string :=
  match l with
  | [] => ""
  | [x] => x
  | x :: l' => x +:+ sep +:+ join sep l'
  end.

(** *** A backtracking matcher for the regular expressions the program uses

    A pattern maps the text still to be read to the ways it can match a
    prefix of it, most preferred first, each as the matched text and the
    remainder; this is the search order of [re]. *)
Module Re.

Definition t : Type := string → list (string * string).

Definition cls (p : ascii → bool) : t :=
  λ s, match s with
       | String c s' => if p c then [(String c "", s')] else []
       | EmptyString => []
       end.

Definition chr (c : ascii) : t := cls (λ x, bool_decide (x = c)).

Definition seq (r1 r2 : t) : t :=
  λ s, '(m1, s1) ← r1 s; '(m2, s2) ← r2 s1; [(m1 +:+ m2, s2)].

Definition alt (r1 r2 : t) : t := λ s, r1 s ++ r2 s.

Definition eps : t := λ s, [("", s)].

Fixpoint rep (n : nat) (r : t) : t :=
  match n with
  | O => eps
  | S n' => seq r (rep n' r)
  end.

(** [$]: the end of the text, or the place just before a newline that ends
    the text. *)
Definition dollar : t :=
  λ s, if bool_decide (s = "") || bool_decide (s = String LF "")
       then [("", s)] else [].

(** [re.match]: the first match from the start of the text, if any. *)
Definition match_ (r : t) (s : string) : option (string * string) := head (r s).

End Re.

(** [int(s)] on the texts the date patterns capture: blanks before the
    digits are skipped. *)
Definition digit_val (c : ascii) : Z := Z.of_N (N_of_ascii c) - 48.

Fixpoint int_acc (acc : Z) (s : string) : Z :=
  match s with
  | EmptyString => acc
  | String c s' => int_acc (10 * acc + digit_val c) s'
  end.

Fixpoint lstrip (s : string) : string :=
  match s with
  | String " " s' => lstrip s'
  | _ => s
  end.

Definition int (s : string) : Z := int_acc 0 (lstrip s).

Definition digit_chr (n : Z) : ascii := ascii_of_N (Z.to_N (48 + n)).

(** [%02d] and [%04d]. *)
Definition pad2 (n : Z) : string :=
  String (digit_chr (n / 10 mod 10)) (String (digit_chr (n mod 10)) "").
Definition pad4 (n : Z) : string :=
  String (digit_chr (n / 1000 mod 10)) (String (digit_chr (n / 100 mod 10)) (pad2 n)).

(** [%d] of a number that is not negative: its decimal digits, the first one
    not a zero unless the number is zero.  [fuel] bounds the number of
    digits. *)
Fixpoint decimal_acc (fuel : nat) (n : Z) (acc : string) : string :=
  match fuel with
  | O => acc
  | S fuel' =>
      let acc' := String (digit_chr (n mod 10)) acc in
      if n / 10 =? 0 then acc' else decimal_acc fuel' (n / 10) acc'
  end.

Definition decimal (n : Z) : string :=
  decimal_acc (S (Z.to_nat (Z.log2 n))) n "".

(** ** [datetime.date] *)
Module Date.

Record t : Type := mk { year : Z; month : Z; day : Z }.

Definition MINYEAR : Z := 1.
Definition MAXYEAR : Z := 9999.

Definition _is_leap (y : Z) : bool :=
  (y mod 4 =? 0) && (negb (y mod 100 =? 0) || (y mod 400 =? 0)).

Definition _DAYS_IN_MONTH : list Z :=
  [-1; 31; 28; 31; 30; 31; 30; 31; 31; 30; 31; 30; 31].

Definition _DAYS_BEFORE_MONTH : list Z :=
  [-1; 0; 31; 59; 90; 120; 151; 181; 212; 243; 273; 304; 334].

Definition _days_before_year (y : Z) : Z :=
  let y := y - 1 in y * 365 + y / 4 - y / 100 + y / 400.

Definition _days_in_month (y m : Z) : Z :=
  if (m =? 2) && _is_leap y then 29 else nth (Z.to_nat m) _DAYS_IN_MONTH 0.

Definition _days_before_month (y m : Z) : Z :=
  nth (Z.to_nat m) _DAYS_BEFORE_MONTH 0 + (if (m >? 2) && _is_leap y then 1 else 0).

Definition _ymd2ord (y m d : Z) : Z :=
  _days_before_year y + _days_before_month y m + d.

Definition _check_date_fields (y m d : Z) : result unit :=
  if negb ((MINYEAR <=? y) && (y <=? MAXYEAR)) then
    Raise (ValueError "year is out of range")
  else if negb ((1 <=? m) && (m <=? 12)) then
    Raise (ValueError "month must be in 1..12")
  else if negb ((1 <=? d) && (d <=? _days_in_month y m)) then
    Raise (ValueError "day is out of range for month")
  else Ok tt.

(** [date(y, m, d)]. *)
Definition new (y m d : Z) : result t :=
  match _check_date_fields y m d with
  | Ok _ => Ok (mk y m d)
  | Raise e => Raise e
  end.

(** [self.replace(year=y)]. *)
Definition replace_year (self : t) (y : Z) : result t :=
  new y (month self) (day self).

Definition toordinal (self : t) : Z :=
  _ymd2ord (year self) (month self) (day self).

(** [self < other]: the comparison of the (year, month, day) triples. *)
Definition lt (self other : t) : bool :=
  (year self <? year other)
  || ((year self =? year other)
      && ((month self <? month other)
          || ((month self =? month other) && (day self <? day other)))).

(** [(self - other).days]. *)
Definition sub_days (self other : t) : Z := toordinal self - toordinal other.

(** [self.weekday()]: Monday is 0. *)
Definition weekday (self : t) : Z := (toordinal self + 6) mod 7.

Definition day_names : list string :=
  ["Monday"; "Tuesday"; "Wednesday"; "Thursday"; "Friday"; "Saturday"; "Sunday"].

(** [self.strftime('%A')]. *)
Definition strftime_A (self : t) : string :=
  nth (Z.to_nat (weekday self)) day_names "".

(** [self.strftime("%d.%m.%Y")]: the year is printed as the C library
    prints [%Y], without leading zeros. *)
Definition strftime_dmY (self : t) : string :=
  pad2 (day self) +:+ "." +:+ pad2 (month self) +:+ "." +:+ decimal (year self).

Definition valid (d : t) : Prop := new (year d) (month d) (day d) = Ok d.

(** The patterns [_strptime] substitutes for the directives. *)
Definition re_d : Re.t :=
  Re.alt (Re.seq (Re.chr "3") (Re.cls (in_range "0" "1")))
 (Re.alt (Re.seq (Re.cls (in_range "1" "2")) (Re.cls is_digit))
 (Re.alt (Re.seq (Re.chr "0") (Re.cls (in_range "1" "9")))
 (Re.alt (Re.cls (in_range "1" "9"))
         (Re.seq (Re.chr " ") (Re.cls (in_range "1" "9")))))).

Definition re_m : Re.t :=
  Re.alt (Re.seq (Re.chr "1") (Re.cls (in_range "0" "2")))
 (Re.alt (Re.seq (Re.chr "0") (Re.cls (in_range "1" "9")))
         (Re.cls (in_range "1" "9"))).

Definition re_Y : Re.t := Re.rep 4 (Re.cls is_digit).

(** The compiled format ["%d.%m.%Y"], with its three groups. *)
Definition format_regex : string → list (string * string * string * string) :=
  λ s, '(d, s1) ← re_d s; '(_, s2) ← Re.chr "." s1;
       '(m, s3) ← re_m s2; '(_, s4) ← Re.chr "." s3;
       '(y, s5) ← re_Y s4; [(d, m, y, s5)].

(** [datetime.strptime(s, "%d.%m.%Y").date()]: the first match of the
    format must consume the whole text, and the fields must make a date. *)
Definition strptime_dmY (s : string) : result t :=
  match head (format_regex s) with
  | None => Raise (ValueError "time data does not match format")
  | Some (d, m, y, rest) =>
      if negb (bool_decide (rest = "")) then
        Raise (ValueError "unconverted data remains")
      else new (int y) (int m) (int d)
  end.

End Date.

Global Instance result_ret : MRet result := λ A, Ok.
Global Instance result_bind : MBind result :=
  λ A B k r, match r with Ok a => k a | Raise e => Raise e end.

(** ** An insertion-ordered dictionary with string keys ([dict]) *)
Module Dict.

Definition t (V : Type) : Type := list (string * V).

Fixpoint get {V} (k : string) (d : t V) : option V :=
  match d with
  | [] => None
  | (k', v) :: d' => if String.eqb k k' then Some v else get k d'
  end.

Definition contains {V} (k : string) (d : t V) : bool :=
  match get k d with Some _ => true | None => false end.

(** [d[k] = v]: an existing key keeps its place, a new key goes last. *)
Fixpoint set {V} (k : string) (v : V) (d : t V) : t V :=
  match d with
  | [] => [(k, v)]
  | (k', v') :: d' =>
      if String.eqb k k' then (k, v) :: d' else (k', v') :: set k v d'
  end.

Definition keys {V} (d : t V) : list string := d.*1.
Definition values {V} (d : t V) : list V := d.*2.

End Dict.

(** ** Field classes *)

Module Name.
Record t : Type := mk { value : string }.
End Name.

Module Phone.

Record t : Type := mk { value : string }.

(** [re.match(r"^\d{10}$", value)] is a match. *)
Definition validate (value : string) : bool :=
  match Re.match_ (Re.seq (Re.rep 10 (Re.cls is_digit)) Re.dollar) value with
  | Some _ => true
  | None => false
  end.

Definition init (value : string) : result t :=
  if negb (validate value) then
    Raise (ValueError "Phone number must have 10 digits.")
  else Ok (mk value).

End Phone.

Module Birthday.

Record t : Type := mk { value : Date.t }.

Definition validate (value : string) : result bool :=
  match Date.strptime_dmY value with
  | Ok _ => Ok true
  | Raise (ValueError _) => Ok false
  | Raise e => Raise e
  end.

Definition init (value : string) : result t :=
  ok ← validate value;
  if negb ok then Raise (ValueError "Birthday must be in the format DD.MM.YYYY")
  else d ← Date.strptime_dmY value; Ok (mk d).

Definition str (self : t) : string := Date.strftime_dmY (value self).

End Birthday.

(** ** The contact record

    The attribute [birthday] exists only once [add_birthday] has run; it is
    an [option] here, [None] standing for the missing attribute.  The
    methods run in [M t], the record being the object they mutate. *)
Module Record_.

Record t : Type :=
  mk { name : Name.t; phones : list Phone.t; birthday : option Birthday.t }.

Definition init (name : string) : t := mk (Name.mk name) [] None.

Definition set_phones (l : list Phone.t) (self : t) : t :=
  mk (name self) l (birthday self).

Definition set_birthday (b : Birthday.t) (self : t) : t :=
  mk (name self) (phones self) (Some b).

Definition add_phone (phone : string) : M t unit :=
  p ← lift (Phone.init phone);
  modify (λ self, set_phones (phones self ++ [p]) self).

(** [for p in self.phones: body]: the list iterator keeps an index into the
    list object and reads the list as it is when each step starts.  [fuel]
    bounds the number of steps. *)
Fixpoint for_phones (fuel : nat) (i : nat) (body : nat → Phone.t → M t unit)
  : M t unit :=
  match fuel with
  | O => ret tt
  | S fuel' =>
      self ← get;
      match phones self !! i with
      | None => ret tt
      | Some p => body i p;; for_phones fuel' (S i) body
      end
  end.

(** [self.phones.remove(p)] for the entry [p] the iterator just produced at
    index [i].  [Field] defines no [__eq__], so [remove] deletes the first
    entry that is the object [p]; the entries of a phone list are distinct
    objects ([add_phone] and [edit_phone] make a new one each time), so that
    entry is the one at [i]. *)
Definition phones_remove_at (i : nat) : M t unit :=
  modify (λ self, set_phones (delete i (phones self)) self).

Definition remove_phone (phone : string) : M t unit :=
  self ← get;
  for_phones (S (length (phones self))) 0 (λ i p,
    if String.eqb (Phone.value p) phone then phones_remove_at i else ret tt).

Definition edit_phone (old_phone new_phone : string) : M t unit :=
  self ← get;
  for_phones (S (length (phones self))) 0 (λ index phone,
    if String.eqb (Phone.value phone) old_phone then
      p ← lift (Phone.init new_phone);
      modify (λ self, set_phones (<[index := p]> (phones self)) self)
    else ret tt).

Definition add_birthday (birthday : string) : M t unit :=
  b ← lift (Birthday.init birthday);
  modify (set_birthday b).

Definition get_birthday (self : t) : string :=
  match birthday self with
  | Some b => Birthday.str b
  | None => "Birthday not set"
  end.

Definition str (self : t) : string :=
  "Contact name: " +:+ Name.value (name self) +:+ ", phones: "
  +:+ join "; " (Phone.value <$> phones self).

End Record_.

(** ** The persisted file

    [json.dump] writes, and [json.load] reads back, an object that maps each
    name to an object with the keys ['phones'] (a list of strings) and
    ['birthday'] (a string or [null]); the file is kept as that value. *)
Module File.

Record entry : Type := mk { phones : list string; birthday : option string }.

Definition json_data : Type := Dict.t entry.

Inductive t : Type :=
| Missing                     (* no such file *)
| Denied (text : string)      (* [open] raises [OSError] with this text *)
| Corrupt (text : string)     (* not JSON: [json.load] raises [JSONDecodeError] *)
| Content (data : json_data).

End File.

(** ** The address book *)
Module AddressBook.

(** [self.data]. *)
Definition t : Type := Dict.t Record_.t.

Definition add_record (record : Record_.t) : M t unit :=
  modify (Dict.set (Name.value (Record_.name record)) record).

Definition find (name : string) (self : t) : option Record_.t :=
  Dict.get name self.

(** [birthdays[weekday].append(name)] on a [defaultdict(list)]. *)
Definition append_to (weekday name : string) (birthdays : Dict.t (list string))
  : Dict.t (list string) :=
  Dict.set weekday (default [] (Dict.get weekday birthdays) ++ [name]) birthdays.

(** The date the loop body settles on for one birthday. *)
Definition occurrence (today birthday : Date.t) : result Date.t :=
  birthday_this_year ← Date.replace_year birthday (Date.year today);
  if Date.lt birthday_this_year today then
    Date.replace_year birthday_this_year (Date.year today + 1)
  else Ok birthday_this_year.

Definition bucket (birthday_this_year : Date.t) : string :=
  let weekday := Date.strftime_A birthday_this_year in
  if bool_decide (weekday ∈ ["Saturday"; "Sunday"]) then "Monday" else weekday.

(** One turn of [for user in users]. *)
Definition per_user (today : Date.t) (birthdays : Dict.t (list string))
    (user : string * Birthday.t) : result (Dict.t (list string)) :=
  let name := user.1 in
  let birthday := Birthday.value user.2 in
  birthday_this_year ← occurrence today birthday;
  let delta_days := Date.sub_days birthday_this_year today in
  if delta_days <? 7 then
    Ok (append_to (bucket birthday_this_year) name birthdays)
  else Ok birthdays.

Fixpoint for_users (today : Date.t) (users : list (string * Birthday.t))
    (birthdays : Dict.t (list string)) : result (Dict.t (list string)) :=
  match users with
  | [] => Ok birthdays
  | user :: users' =>
      birthdays' ← per_user today birthdays user;
      for_users today users' birthdays'
  end.

Definition users_of (self : t) : list (string * Birthday.t) :=
  omap (λ '(name, record), b ← Record_.birthday record; Some (name, b)) self.

(** [today] is what [datetime.today().date()] returns. *)
Definition get_birthdays_per_week (today : Date.t) (self : t)
  : result (Dict.t (list string)) :=
  for_users today (users_of self) [].

Definition to_json (self : t) : File.json_data :=
  (λ '(name, record),
     (name, File.mk (Phone.value <$> Record_.phones record)
                    (Birthday.str <$> Record_.birthday record))) <$> self.

Definition save_to_disk (file : File.t) (self : t) : result File.t :=
  match file with
  | File.Denied text => Raise (OSError text)
  | _ => Ok (File.Content (to_json self))
  end.

Fixpoint add_phones (l : list string) : M Record_.t unit :=
  match l with
  | [] => ret tt
  | phone :: l' => Record_.add_phone phone;; add_phones l'
  end.

(** The body of [for name, data in json_data.items()]. *)
Definition load_entry (name : string) (data : File.entry) : M t unit :=
  let '(res, record) :=
    (add_phones (File.phones data);;
     match File.birthday data with
     | Some b => if bool_decide (b = "") then ret tt else Record_.add_birthday b
     | None => ret tt
     end) (Record_.init name) in
  match res with
  | Ok _ => modify (Dict.set name record)
  | Raise e => raise e
  end.

Fixpoint load_entries (data : File.json_data) : M t unit :=
  match data with
  | [] => ret tt
  | (name, entry) :: data' => load_entry name entry;; load_entries data'
  end.

Definition load_from_disk (file : File.t) : M t unit :=
  match file with
  | File.Missing => ret tt
  | File.Denied text => raise (OSError text)
  | File.Corrupt text => raise (ValueError text)
  | File.Content data => load_entries data
  end.

End AddressBook.

(** ** Bot functionality

    A handler receives the argument tuple and works on the world: the shared
    book, the file [addressbook.json] and the current date. *)

Record world : Type :=
  World { book : AddressBook.t; disk : File.t; today : Date.t }.

(** Run a method on the book of the world. *)
Definition on_book {A} (m : M AddressBook.t A) : M world A :=
  λ w, let '(res, b) := m (book w) in (res, World b (disk w) (today w)).

(** Run a method on the record object the book holds under [key]: what the
    method does to the object is seen through the book, also when it
    raises.  Callers hold a reference they got from the book, so the key is
    present. *)
Definition on_record {A} (key : string) (m : M Record_.t A) : M AddressBook.t A :=
  λ b, match Dict.get key b with
       | Some record => let '(res, record') := m record in
                        (res, Dict.set key record' b)
       | None => (Raise (KeyError key), b)
       end.

Definition handler : Type := list string → M world string.

Definition GIVE_NAME_AND_PHONE : string := "Give me name and phone please.".
Definition CONTACT_NOT_FOUND : string := "Contact not found.".

(** The decorator: the wrapped handler always returns a string. *)
Definition input_error (func : handler) (args : list string) (w : world)
  : string * world :=
  match func args w with
  | (Ok s, w') => (s, w')
  | (Raise (ValueError _), w') | (Raise (IndexError _), w') =>
      (GIVE_NAME_AND_PHONE, w')
  | (Raise (KeyError _), w') => (CONTACT_NOT_FOUND, w')
  | (Raise e, w') => ("Unexpected error: " +:+ exn_str e, w')
  end.

(** [args[i]]. *)
Definition arg {S} (i : nat) (args : list string) : M S string :=
  match args !! i with
  | Some a => ret a
  | None => raise (IndexError "tuple index out of range")
  end.

(** [book.find(username)] followed by [if not record: raise KeyError]. *)
Definition find_or_KeyError (username : string) : M world Record_.t :=
  w ← get;
  match AddressBook.find username (book w) with
  | Some record => ret record
  | None => raise (KeyError "")
  end.

(** [record.phones[0]]. *)
Definition first_phone (record : Record_.t) : M world Phone.t :=
  match Record_.phones record !! 0%nat with
  | Some p => ret p
  | None => raise (IndexError "list index out of range")
  end.

(** The functions as written, before the decorator is applied. *)
Module Raw.

Definition hello : handler := λ args, ret "How can I help you?".

Definition add : handler := λ args,
  (if (length args <? 2)%nat then raise (ValueError "") else ret tt);;
  username ← arg 0 args;
  phone ← arg 1 args;
  w ← get;
  (if negb (Dict.contains username (book w)) then
     on_book (AddressBook.add_record (Record_.init username))
   else ret tt);;
  on_book (on_record username (Record_.add_phone phone));;
  ret ("Added " +:+ username +:+ " with phone number " +:+ phone).

Definition change : handler := λ args,
  (if (length args <? 2)%nat then raise (ValueError "") else ret tt);;
  username ← arg 0 args;
  phone ← arg 1 args;
  record ← find_or_KeyError username;
  p0 ← first_phone record;
  on_book (on_record username (Record_.edit_phone (Phone.value p0) phone));;
  ret ("Changed " +:+ username +:+ "'s phone number to " +:+ phone).

Definition phone : handler := λ args,
  (if (length args =? 0)%nat then raise (ValueError "") else ret tt);;
  username ← arg 0 args;
  record ← find_or_KeyError username;
  p0 ← first_phone record;
  ret (Phone.value p0).

Definition all_contacts : handler := λ args,
  w ← get;
  match book w with
  | [] => ret "No contacts saved"
  | _ => ret (join (String LF "") (Record_.str <$> Dict.values (book w)))
  end.

Definition exit_bot : handler := λ args, ret "Goodbye!".

Definition add_birthday : handler := λ args,
  (if (length args <? 2)%nat then raise (ValueError "") else ret tt);;
  username ← arg 0 args;
  bday ← arg 1 args;
  _ ← find_or_KeyError username;
  on_book (on_record username (Record_.add_birthday bday));;
  ret ("Added birthday " +:+ bday +:+ " for " +:+ username).

Definition show_birthday : handler := λ args,
  (if (length args =? 0)%nat then raise (ValueError "") else ret tt);;
  username ← arg 0 args;
  record ← find_or_KeyError username;
  ret (Record_.get_birthday record).

Definition birthdays : handler := λ args,
  w ← get;
  bdays ← lift (AddressBook.get_birthdays_per_week (today w) (book w));
  match bdays with
  | [] => ret "No birthdays in the coming week."
  | _ => ret (join (String LF "")
                ((λ '(weekday, names), weekday +:+ ": " +:+ join ", " names) <$> bdays))
  end.

Definition unknown_command : handler := λ args,
  a ← arg 0 args;
  ret ("Unknown command: " +:+ a).

Definition save : handler := λ args,
  w ← get;
  file ← lift (AddressBook.save_to_disk (disk w) (book w));
  put (World (book w) file (today w));;
  ret "Address book saved.".

Definition load : handler := λ args,
  w ← get;
  on_book (AddressBook.load_from_disk (disk w));;
  ret "Address book loaded from disk.".

End Raw.

Definition hello := input_error Raw.hello.
Definition add := input_error Raw.add.
Definition change := input_error Raw.change.
Definition phone := input_error Raw.phone.
Definition all_contacts := input_error Raw.all_contacts.
Definition exit_bot := input_error Raw.exit_bot.
Definition add_birthday := input_error Raw.add_birthday.
Definition show_birthday := input_error Raw.show_birthday.
Definition birthdays := input_error Raw.birthdays.
Definition unknown_command := input_error Raw.unknown_command.
Definition save := input_error Raw.save.
Definition load := input_error Raw.load.

(** The command table, and every function the dispatcher can call. *)
Definition RAW_COMMANDS : Dict.t handler :=
  [("hello", Raw.hello); ("add", Raw.add); ("change", Raw.change);
   ("phone", Raw.phone); ("all", Raw.all_contacts);
   ("add-birthday", Raw.add_birthday); ("show-birthday", Raw.show_birthday);
   ("birthdays", Raw.birthdays); ("close", Raw.exit_bot); ("exit", Raw.exit_bot);
   ("save", Raw.save); ("load", Raw.load)].

Definition COMMANDS : Dict.t (list string → world → string * world) :=
  (λ '(k, h), (k, input_error h)) <$> RAW_COMMANDS.

Definition raw_handlers : list handler :=
  Raw.unknown_command :: Dict.values RAW_COMMANDS.

(** * Properties *)

(** ** Dictionaries *)
Section dict.
Context {V : Type}.
Implicit Types (d : Dict.t V) (k : string) (v : V).

Lemma Dict_get_set k k' v d :
  Dict.get k (Dict.set k' v d) = if String.eqb k k' then Some v else Dict.get k d.
Proof.
  induction d as [|[k0 v0] d IH]; simpl.
  - by destruct (String.eqb_spec k k').
  - destruct (String.eqb_spec k' k0) as [->|Hne]; simpl.
    + by destruct (String.eqb_spec k k0).
    + rewrite IH. destruct (String.eqb_spec k k0) as [->|]; [|done].
      destruct (String.eqb_spec k0 k'); congruence.
Qed.

Lemma Dict_get_None k d : Dict.get k d = None ↔ k ∉ Dict.keys d.
Proof.
  unfold Dict.keys. induction d as [|[k0 v0] d IH]; simpl.
  - split; [intros _; apply not_elem_of_nil | done].
  - rewrite not_elem_of_cons. destruct (String.eqb_spec k k0); naive_solver.
Qed.

Lemma Dict_get_elem_of k v d : Dict.get k d = Some v → (k, v) ∈ d.
Proof.
  induction d as [|[k0 v0] d IH]; simpl; [done|].
  destruct (String.eqb_spec k k0) as [->|].
  - intros [= ->]. left.
  - intros. right. auto.
Qed.

Lemma Dict_elem_of_get k v d : NoDup (Dict.keys d) → (k, v) ∈ d → Dict.get k d = Some v.
Proof.
  unfold Dict.keys. induction d as [|[k0 v0] d IH]; simpl.
  - intros _ H. by apply elem_of_nil in H.
  - rewrite NoDup_cons. intros [Hk0 Hnd] [[= -> ->]|Hin]%elem_of_cons.
    + by rewrite String.eqb_refl.
    + destruct (String.eqb_spec k k0) as [->|]; [|auto].
      destruct Hk0. apply list_elem_of_fmap. by exists (k0, v).
Qed.

(** Setting an absent key appends the item. *)
Lemma Dict_set_absent k v d : Dict.get k d = None → Dict.set k v d = d ++ [(k, v)].
Proof.
  induction d as [|[k0 v0] d IH]; simpl; [done|].
  destruct (String.eqb_spec k k0); [done|]. intros. f_equal. auto.
Qed.

(** Setting a key to the value it has changes nothing. *)
Lemma Dict_set_same k v d : NoDup (Dict.keys d) → (k, v) ∈ d → Dict.set k v d = d.
Proof.
  unfold Dict.keys. induction d as [|[k0 v0] d IH]; simpl.
  - intros _ H. by apply elem_of_nil in H.
  - rewrite NoDup_cons. intros [Hk0 Hnd] [[= -> ->]|Hin]%elem_of_cons.
    + by rewrite String.eqb_refl.
    + destruct (String.eqb_spec k k0) as [->|].
      * destruct Hk0. apply list_elem_of_fmap. by exists (k0, v).
      * f_equal. auto.
Qed.

Lemma Dict_elem_of_unique k v v' d :
  NoDup (Dict.keys d) → (k, v) ∈ d → (k, v') ∈ d → v = v'.
Proof.
  intros Hnd H1 H2.
  apply (Dict_elem_of_get _ _ _ Hnd) in H1, H2. congruence.
Qed.

End dict.

(** ** The weekly-birthday query *)

(** [name] is in the list kept under the key [k]. *)
Definition in_bucket (k name : string) (birthdays : Dict.t (list string)) : Prop :=
  ∃ names, Dict.get k birthdays = Some names ∧ name ∈ names.

(** [name] is somewhere in the result. *)
Definition listed (name : string) (birthdays : Dict.t (list string)) : Prop :=
  ∃ k, in_bucket k name birthdays.

(** The occurrence in the words of the specification: the birthday with the
    year of today, or with the year after when that date is before today. *)
Definition occurrence_spec (today birthday : Date.t) : result Date.t :=
  match Date.new (Date.year today) (Date.month birthday) (Date.day birthday) with
  | Ok this_year =>
      if Date.lt this_year today then
        Date.new (Date.year today + 1) (Date.month birthday) (Date.day birthday)
      else Ok this_year
  | Raise e => Raise e
  end.

Lemma occurrence_is_spec today birthday :
  AddressBook.occurrence today birthday = occurrence_spec today birthday.
Proof.
  unfold AddressBook.occurrence, occurrence_spec, Date.replace_year.
  destruct (Date.new _ _ _) as [d|e] eqn:Hd; simpl; [|done].
  unfold Date.new in Hd. destruct (Date._check_date_fields _ _ _); [|done].
  by injection Hd as <-.
Qed.

Lemma in_bucket_nil k name : ¬ in_bucket k name [].
Proof. by intros (names & ? & _). Qed.

Lemma in_bucket_append_to k name wd n acc :
  in_bucket k name (AddressBook.append_to wd n acc)
  ↔ in_bucket k name acc ∨ (k = wd ∧ name = n).
Proof.
  unfold in_bucket, AddressBook.append_to. setoid_rewrite Dict_get_set.
  destruct (String.eqb_spec k wd) as [->|Hne].
  - split.
    + intros (names & [= <-] & Hin). apply elem_of_app in Hin as [Hin|Hin].
      * left. destruct (Dict.get wd acc) as [l|] eqn:E; simpl in Hin.
        -- by exists l.
        -- by apply elem_of_nil in Hin.
      * right. by apply list_elem_of_singleton in Hin.
    + intros [(names & Hg & Hin)|[_ ->]]; eexists; (split; [done|]).
      * rewrite Hg. simpl. apply elem_of_app. by left.
      * apply elem_of_app. right. by apply list_elem_of_singleton.
  - naive_solver.
Qed.

Lemma for_users_spec today users : ∀ acc res,
  AddressBook.for_users today users acc = Ok res →
  ∀ k name,
    in_bucket k name res
    ↔ in_bucket k name acc
      ∨ ∃ b occ, (name, b) ∈ users
                 ∧ AddressBook.occurrence today (Birthday.value b) = Ok occ
                 ∧ Date.sub_days occ today < 7
                 ∧ k = AddressBook.bucket occ.
Proof.
  induction users as [|[n b] users IH]; simpl; intros acc res Hres k name.
  - injection Hres as <-. split; [by left|].
    intros [?|(b & occ & Hin & _)]; [done|]. by apply elem_of_nil in Hin.
  - unfold AddressBook.per_user in Hres. simpl in Hres.
    destruct (AddressBook.occurrence today (Birthday.value b)) as [occ|e] eqn:Hocc;
      simpl in Hres; [|done].
    destruct (Z.ltb_spec (Date.sub_days occ today) 7) as [Hlt|Hge]; simpl in Hres.
    + rewrite (IH _ _ Hres), in_bucket_append_to. split.
      * intros [[?|[-> ->]]|(b' & occ' & Hin & ?)]; [by left|right..].
        -- exists b, occ. repeat split; [left|done..].
        -- exists b', occ'. split; [by right|done].
      * intros [?|(b' & occ' & [[= -> ->]|Hin]%elem_of_cons & Ho & Hd & ->)].
        -- by left; left.
        -- left; right. split; [|done]. congruence.
        -- right. by exists b', occ'.
    + rewrite (IH _ _ Hres). split.
      * intros [?|(b' & occ' & Hin & ?)]; [by left|right].
        exists b', occ'. split; [by right|done].
      * intros [?|(b' & occ' & [[= -> ->]|Hin]%elem_of_cons & Ho & Hd & ->)].
        -- by left.
        -- rewrite Hocc in Ho. injection Ho as ->. lia.
        -- right. by exists b', occ'.
Qed.

(** The query returns exactly when every birthday has an occurrence. *)
Lemma for_users_total today users : ∀ acc,
  (∃ res, AddressBook.for_users today users acc = Ok res)
  ↔ ∀ name b, (name, b) ∈ users →
      is_Ok (AddressBook.occurrence today (Birthday.value b)) = true.
Proof.
  induction users as [|[n b] users IH]; simpl; intros acc.
  - split; [|by eauto]. intros _ ?? H. by apply elem_of_nil in H.
  - unfold AddressBook.per_user. simpl.
    destruct (AddressBook.occurrence today (Birthday.value b)) as [occ|e] eqn:Hocc;
      simpl.
    + destruct (Date.sub_days occ today <? 7); simpl; rewrite IH; split.
      all: try (intros H n' b' [[= -> ->]|Hin]%elem_of_cons; [by rewrite Hocc|by eauto]).
      all: intros H n' b' Hin; apply (H n' b'); by right.
    + split; [by intros [? ?]|]. intros H.
      specialize (H n b (list_elem_of_here _ _)). by rewrite Hocc in H.
Qed.

Lemma elem_of_users_of name b (self : AddressBook.t) :
  (name, b) ∈ AddressBook.users_of self
  ↔ ∃ record, (name, record) ∈ self ∧ Record_.birthday record = Some b.
Proof.
  unfold AddressBook.users_of. rewrite list_elem_of_omap. split.
  - intros ([n r] & Hin & Hb). destruct (Record_.birthday r) eqn:E; simplify_eq/=.
    by exists r.
  - intros (r & Hin & Hb). exists (name, r). split; [done|]. by rewrite Hb.
Qed.

(** Where the name of a record of the book ends up. *)
Lemma weekly_buckets today (self : AddressBook.t) res name record b :
  NoDup (Dict.keys self) →
  AddressBook.get_birthdays_per_week today self = Ok res →
  (name, record) ∈ self → Record_.birthday record = Some b →
  ∃ occ, AddressBook.occurrence today (Birthday.value b) = Ok occ
         ∧ ∀ k, in_bucket k name res
                ↔ Date.sub_days occ today < 7 ∧ k = AddressBook.bucket occ.
Proof.
  intros Hnd Hres Hin Hb. unfold AddressBook.get_birthdays_per_week in Hres.
  assert (Hu : (name, b) ∈ AddressBook.users_of self)
    by (apply elem_of_users_of; eauto).
  pose proof (proj1 (for_users_total today _ []) (ex_intro _ res Hres) name b Hu)
    as Hok.
  destruct (AddressBook.occurrence today (Birthday.value b)) as [occ|e] eqn:Hocc;
    [|done].
  exists occ. split; [done|]. intros k.
  rewrite (for_users_spec _ _ _ _ Hres). split.
  - intros [H|(b' & occ' & Hin' & Ho & Hd & ->)]; [by apply in_bucket_nil in H|].
    apply elem_of_users_of in Hin' as (record' & Hin' & Hb').
    assert (record' = record) as -> by eauto using Dict_elem_of_unique.
    assert (b' = b) as -> by congruence.
    assert (occ' = occ) as -> by congruence. done.
  - intros [Hd ->]. right. by exists b, occ.
Qed.

(** C1.  In a book (a dictionary, so with distinct keys), the weekly query
    returns exactly when every set birthday has an occurrence; and when it
    returns, every record with a set birthday has as occurrence the birthday
    with the year of today, or with the year after when that date is
    strictly before today, and its name is in the result if and only if the
    occurrence is less than 7 whole days after today. *)
Theorem weekly_occurrence_and_inclusion today (self : AddressBook.t) :
  NoDup (Dict.keys self) →
  ((∃ res, AddressBook.get_birthdays_per_week today self = Ok res)
   ↔ ∀ name record b, (name, record) ∈ self → Record_.birthday record = Some b →
       is_Ok (occurrence_spec today (Birthday.value b)) = true)
  ∧ ∀ res, AddressBook.get_birthdays_per_week today self = Ok res →
      ∀ name record b, (name, record) ∈ self → Record_.birthday record = Some b →
        ∃ occ, occurrence_spec today (Birthday.value b) = Ok occ
               ∧ (listed name res ↔ Date.sub_days occ today < 7).
Proof.
  intros Hnd. split.
  - unfold AddressBook.get_birthdays_per_week. rewrite for_users_total.
    setoid_rewrite elem_of_users_of. setoid_rewrite occurrence_is_spec.
    split; [by eauto|]. intros H name b (record & ? & ?). eauto.
  - intros res Hres name record b Hin Hb.
    destruct (weekly_buckets _ _ _ _ _ _ Hnd Hres Hin Hb) as (occ & Hocc & Hk).
    exists occ. rewrite <-occurrence_is_spec. split; [done|].
    unfold listed. setoid_rewrite Hk. split; [by intros (k & ? & _)|].
    intros. by exists (AddressBook.bucket occ).
Qed.

(** C2.  When the query returns, a record whose occurrence qualifies and
    falls on a Saturday or a Sunday has its name under the key "Monday" and
    under no other key; whether the name is in the result at all depends
    only on the occurrence itself being less than 7 days after today. *)
Theorem weekend_goes_to_monday today (self : AddressBook.t) res name record b :
  NoDup (Dict.keys self) →
  AddressBook.get_birthdays_per_week today self = Ok res →
  (name, record) ∈ self → Record_.birthday record = Some b →
  ∃ occ, occurrence_spec today (Birthday.value b) = Ok occ
         ∧ (listed name res ↔ Date.sub_days occ today < 7)
         ∧ (Date.sub_days occ today < 7 →
            Date.strftime_A occ = "Saturday" ∨ Date.strftime_A occ = "Sunday" →
            in_bucket "Monday" name res
            ∧ ∀ k, k ≠ "Monday" → ¬ in_bucket k name res)
         ∧ (Date.sub_days occ today < 7 →
            Date.strftime_A occ ≠ "Saturday" → Date.strftime_A occ ≠ "Sunday" →
            ∀ k, in_bucket k name res ↔ k = Date.strftime_A occ).
Proof.
  intros Hnd Hres Hin Hb.
  destruct (weekly_buckets _ _ _ _ _ _ Hnd Hres Hin Hb) as (occ & Hocc & Hk).
  exists occ. rewrite <-occurrence_is_spec. split; [done|]. split; [|split].
  - unfold listed. setoid_rewrite Hk. split; [by intros (k & ? & _)|].
    intros. by exists (AddressBook.bucket occ).
  - intros Hd Hwe.
    assert (AddressBook.bucket occ = "Monday") as Hbk.
    { unfold AddressBook.bucket. by destruct Hwe as [-> | ->]. }
    split; [apply Hk; by rewrite Hbk|].
    intros k Hne [_ ->]%Hk. by rewrite Hbk in Hne.
  - intros Hd Hsat Hsun k. rewrite Hk.
    assert (AddressBook.bucket occ = Date.strftime_A occ) as ->; [|tauto].
    unfold AddressBook.bucket. rewrite bool_decide_eq_false_2; [done|].
    intros [?|[?|[]%elem_of_nil]%elem_of_cons]%elem_of_cons; congruence.
Qed.

(** In the result no key is a weekend day. *)
Lemma no_weekend_bucket today (self : AddressBook.t) res name k :
  AddressBook.get_birthdays_per_week today self = Ok res →
  in_bucket k name res → k ≠ "Saturday" ∧ k ≠ "Sunday".
Proof.
  intros Hres Hk. apply (for_users_spec _ _ _ _ Hres) in Hk
    as [Hk|(b & occ & _ & _ & _ & ->)]; [by apply in_bucket_nil in Hk|].
  unfold AddressBook.bucket. case_bool_decide as Hwe; [done|].
  split; intros Heq; apply Hwe; rewrite Heq, !elem_of_cons; auto.
Qed.

(** *** The query on sample books *)

Definition contact (name : string) (phones : list string) (birthday : option Date.t)
  : string * Record_.t :=
  (name, Record_.mk (Name.mk name) (Phone.mk <$> phones) (Birthday.mk <$> birthday)).

Definition monday_10_june_2024 : Date.t := Date.mk 2024 6 10.

Definition june_book : AddressBook.t :=
  [contact "ann" ["0501234567"] (Some (Date.mk 1990 6 15));
   contact "bob" ["0671112233"] (Some (Date.mk 1985 1 1));
   contact "eve" [] None;
   contact "dan" ["0930000000"] (Some (Date.mk 2001 6 12))].

Lemma june_book_NoDup : NoDup (Dict.keys june_book).
Proof. apply (bool_decide_unpack _). vm_compute. exact I. Defined.

(** 15 June 2024 is a Saturday: ann is reported under Monday; bob's
    1 January has passed and its next occurrence is far away. *)
Example june_query :
  Date.strftime_A monday_10_june_2024 = "Monday"
  ∧ Date.strftime_A (Date.mk 2024 6 15) = "Saturday"
  ∧ AddressBook.get_birthdays_per_week monday_10_june_2024 june_book
    = Ok [("Monday", ["ann"]); ("Wednesday", ["dan"])]
  ∧ occurrence_spec monday_10_june_2024 (Date.mk 1985 1 1) = Ok (Date.mk 2025 1 1)
  ∧ Date.sub_days (Date.mk 2025 1 1) monday_10_june_2024 = 205.
Proof. vm_compute. done. Qed.

(** Late in the year the occurrence of the next year qualifies. *)
Example december_query :
  AddressBook.get_birthdays_per_week (Date.mk 2024 12 28) june_book
  = Ok [("Wednesday", ["bob"])].
Proof. vm_compute. done. Qed.

Lemma weekly_occurrence_and_inclusion_witness :
  ((∃ res, AddressBook.get_birthdays_per_week monday_10_june_2024 june_book = Ok res)
   ↔ ∀ name record b, (name, record) ∈ june_book → Record_.birthday record = Some b →
       is_Ok (occurrence_spec monday_10_june_2024 (Birthday.value b)) = true)
  ∧ ∀ res, AddressBook.get_birthdays_per_week monday_10_june_2024 june_book = Ok res →
      ∀ name record b, (name, record) ∈ june_book → Record_.birthday record = Some b →
        ∃ occ, occurrence_spec monday_10_june_2024 (Birthday.value b) = Ok occ
               ∧ (listed name res ↔ Date.sub_days occ monday_10_june_2024 < 7).
Proof.
  apply (weekly_occurrence_and_inclusion monday_10_june_2024 june_book).
  exact june_book_NoDup.
Defined.

Lemma weekend_goes_to_monday_witness :
  ∃ occ, occurrence_spec monday_10_june_2024 (Date.mk 1990 6 15) = Ok occ
         ∧ (listed "ann" [("Monday", ["ann"]); ("Wednesday", ["dan"])]
            ↔ Date.sub_days occ monday_10_june_2024 < 7)
         ∧ (Date.sub_days occ monday_10_june_2024 < 7 →
            Date.strftime_A occ = "Saturday" ∨ Date.strftime_A occ = "Sunday" →
            in_bucket "Monday" "ann" [("Monday", ["ann"]); ("Wednesday", ["dan"])]
            ∧ ∀ k, k ≠ "Monday" →
                   ¬ in_bucket k "ann" [("Monday", ["ann"]); ("Wednesday", ["dan"])])
         ∧ (Date.sub_days occ monday_10_june_2024 < 7 →
            Date.strftime_A occ ≠ "Saturday" → Date.strftime_A occ ≠ "Sunday" →
            ∀ k, in_bucket k "ann" [("Monday", ["ann"]); ("Wednesday", ["dan"])]
                 ↔ k = Date.strftime_A occ).
Proof.
  apply (weekend_goes_to_monday monday_10_june_2024 june_book
           [("Monday", ["ann"]); ("Wednesday", ["dan"])] "ann"
           (contact "ann" ["0501234567"] (Some (Date.mk 1990 6 15))).2
           (Birthday.mk (Date.mk 1990 6 15))).
  - exact june_book_NoDup.
  - vm_compute. reflexivity.
  - left.
  - reflexivity.
Defined.

(** *** Leap-day birthdays *)

Lemma replace_year_leap_day (d : Date.t) y :
  Date.month d = 2 → Date.day d = 29 → Date._is_leap y = false →
  ∃ text, Date.replace_year d y = Raise (ValueError text).
Proof.
  intros Hm Hd Hleap. unfold Date.replace_year, Date.new, Date._check_date_fields.
  rewrite Hm, Hd. unfold Date._days_in_month. rewrite Hleap. simpl.
  destruct (negb _); eauto.
Qed.

Lemma new_raises_ValueError y m d e :
  Date.new y m d = Raise e → ∃ text, e = ValueError text.
Proof.
  unfold Date.new, Date._check_date_fields.
  repeat (destruct (negb _); [intros ?; simplify_eq; eauto|]). done.
Qed.

Lemma occurrence_raises_ValueError today birthday e :
  AddressBook.occurrence today birthday = Raise e → ∃ text, e = ValueError text.
Proof.
  rewrite occurrence_is_spec. unfold occurrence_spec.
  destruct (Date.new (Date.year today) _ _) as [d1|e1] eqn:H1.
  - destruct (Date.lt d1 today); [|done]. apply new_raises_ValueError.
  - intros ?; simplify_eq. eauto using new_raises_ValueError.
Qed.

Lemma for_users_raises_ValueError today users : ∀ acc e,
  AddressBook.for_users today users acc = Raise e → ∃ text, e = ValueError text.
Proof.
  induction users as [|[n b] users IH]; simpl; intros acc e; [done|].
  unfold AddressBook.per_user. simpl.
  destruct (AddressBook.occurrence _ _) as [occ|e1] eqn:H1; simpl.
  - destruct (_ <? 7); simpl; eauto.
  - intros ?; simplify_eq. eauto using occurrence_raises_ValueError.
Qed.

(** X7.  A book that holds a 29 February birthday cannot be queried in a year
    that is not a leap year: [date.replace] raises. *)
Lemma leap_day_query_raises today (self : AddressBook.t) name record b :
  (name, record) ∈ self → Record_.birthday record = Some b →
  Date.month (Birthday.value b) = 2 → Date.day (Birthday.value b) = 29 →
  Date._is_leap (Date.year today) = false →
  ∃ text, AddressBook.get_birthdays_per_week today self = Raise (ValueError text).
Proof.
  intros Hin Hb Hm Hd Hleap.
  destruct (AddressBook.get_birthdays_per_week today self) as [res|e] eqn:Hq.
  - exfalso. unfold AddressBook.get_birthdays_per_week in Hq.
    assert (Hu : (name, b) ∈ AddressBook.users_of self)
      by (apply elem_of_users_of; eauto).
    pose proof (proj1 (for_users_total today _ []) (ex_intro _ res Hq) name b Hu)
      as Hok.
    unfold AddressBook.occurrence in Hok.
    destruct (replace_year_leap_day _ _ Hm Hd Hleap) as [text Hr].
    by rewrite Hr in Hok.
  - apply for_users_raises_ValueError in Hq as [text ->]. eauto.
Qed.

Definition leap_book : AddressBook.t :=
  [contact "leo" ["0501234567"] (Some (Date.mk 2000 2 29))].

(** C3.  The text 29.02.2000 is an accepted birthday; with it in the book
    the query of 10 June 2023 raises [ValueError] out of [date.replace], and
    the [birthdays] command answers with the name-and-phone message. *)
Theorem leap_day_birthday_query_fails :
  Birthday.init "29.02.2000" = Ok (Birthday.mk (Date.mk 2000 2 29))
  ∧ Date._is_leap 2023 = false
  ∧ AddressBook.get_birthdays_per_week (Date.mk 2023 6 10) leap_book
    = Raise (ValueError "day is out of range for month")
  ∧ ∀ file, birthdays [] (World leap_book file (Date.mk 2023 6 10))
            = (GIVE_NAME_AND_PHONE, World leap_book file (Date.mk 2023 6 10)).
Proof. repeat split. Qed.

(** ** Phone numbers *)

(** The first [n] characters, when each is in the class [p]. *)
Fixpoint span_n (n : nat) (p : ascii → bool) (s : string) : option (string * string) :=
  match n, s with
  | O, _ => Some ("", s)
  | S n', String c s' =>
      if p c then
        match span_n n' p s' with
        | Some (m, r) => Some (String c m, r)
        | None => None
        end
      else None
  | S _, EmptyString => None
  end.

Lemma rep_cls n p : ∀ s,
  Re.rep n (Re.cls p) s = option_list (span_n n p s).
Proof.
  induction n as [|n IH]; intros s; simpl; [done|].
  unfold Re.seq, Re.cls at 1. destruct s as [|c s]; simpl; [done|].
  destruct (p c); simpl; [|done]. rewrite IH.
  by destruct (span_n n p s) as [[m r]|].
Qed.

Lemma span_n_sound n p : ∀ s m r,
  span_n n p s = Some (m, r) →
  s = m +:+ r ∧ String.length m = n ∧ all_chars p m = true.
Proof.
  induction n as [|n IH]; intros s m r; simpl.
  - by intros [= <- <-].
  - destruct s as [|c s]; [done|]. destruct (p c) eqn:Hc; [|done].
    destruct (span_n n p s) as [[m' r']|] eqn:Hs; [|done].
    intros [= <- <-]. apply IH in Hs as (-> & <- & Hall). simpl.
    by rewrite Hc, Hall.
Qed.

Lemma span_n_complete p r : ∀ m,
  all_chars p m = true → span_n (String.length m) p (m +:+ r) = Some (m, r).
Proof.
  induction m as [|c m IH]; simpl; [done|].
  intros [Hc Hall]%andb_prop. by rewrite Hc, IH.
Qed.

Lemma append_cons c s t : String c s +:+ t = String c (s +:+ t).
Proof. reflexivity. Qed.

Lemma append_empty_r s : s +:+ "" = s.
Proof. induction s as [|c s IH]; [done|]. by rewrite append_cons, IH. Qed.

(** X1.  What the pattern of [Phone.validate] accepts among the texts of the
    model (characters below U+0100, where the decimal digits are 0 to 9):
    ten digits, or ten digits and one newline after them; nothing else. *)
Theorem Phone_validate_spec value :
  Phone.validate value = true
  ↔ ∃ d, String.length d = 10%nat ∧ all_chars is_digit d = true
         ∧ (value = d ∨ value = d +:+ String LF "").
Proof.
  unfold Phone.validate, Re.match_, Re.seq. rewrite rep_cls. split.
  - destruct (span_n 10 is_digit value) as [[m r]|] eqn:Hs; simpl; [|done].
    apply span_n_sound in Hs as (-> & Hl & Hall). unfold Re.dollar.
    intros Hd. exists m. split; [done|]. split; [done|].
    repeat case_bool_decide; simplify_eq/=; [left; apply append_empty_r|by right].
  - intros (d & Hl & Hall & [-> | ->]).
    + rewrite <-(append_empty_r d) at 1. rewrite <-Hl, span_n_complete by done.
      done.
    + rewrite <-Hl, span_n_complete by done. done.
Qed.

(** C4.  A text of eleven characters, ten digits and a newline, is accepted
    as a phone number and stored as it is. *)
Theorem Phone_accepts_trailing_newline :
  let value := "1234567890" +:+ String LF "" in
  String.length value = 11%nat
  ∧ Phone.validate value = true
  ∧ Phone.init value = Ok (Phone.mk value).
Proof. repeat split. Qed.

Example Phone_examples :
  Phone.validate "0501234567" = true
  ∧ Phone.validate "050123456" = false
  ∧ Phone.validate "05012345678" = false
  ∧ Phone.validate "050-123-45" = false
  ∧ Phone.validate "05012345ab" = false
  ∧ Phone.validate " 0501234567" = false.
Proof. repeat split. Qed.

(** ** Birthdays *)

(** *** What the patterns match *)

Lemma elem_of_cls p s m r :
  (m, r) ∈ Re.cls p s ↔ ∃ c, s = String c r ∧ m = String c "" ∧ p c = true.
Proof.
  unfold Re.cls. destruct s as [|c s].
  - split; [by intros ?%elem_of_nil|]. by intros (c & ? & _).
  - destruct (p c) eqn:Hc.
    + rewrite list_elem_of_singleton. split.
      * intros [= -> ->]. by exists c.
      * intros (c' & [= -> ->] & -> & _). done.
    + split; [by intros ?%elem_of_nil|]. intros (c' & [= -> ->] & _ & ?). congruence.
Qed.

Lemma elem_of_chr c s m r :
  (m, r) ∈ Re.chr c s ↔ s = String c r ∧ m = String c "".
Proof.
  unfold Re.chr. rewrite elem_of_cls. split.
  - by intros (c' & -> & -> & ->%bool_decide_eq_true).
  - intros [-> ->]. exists c. by rewrite bool_decide_eq_true.
Qed.

Lemma elem_of_seq r1 r2 s m r :
  (m, r) ∈ Re.seq r1 r2 s
  ↔ ∃ m1 s1 m2, (m1, s1) ∈ r1 s ∧ (m2, r) ∈ r2 s1 ∧ m = m1 +:+ m2.
Proof.
  unfold Re.seq. rewrite list_elem_of_bind. split.
  - intros ([m1 s1] & Hin & H1). apply list_elem_of_bind in Hin as ([m2 s2] & Hin & H2).
    apply list_elem_of_singleton in Hin as [= -> ->]. by exists m1, s1, m2.
  - intros (m1 & s1 & m2 & H1 & H2 & ->). exists (m1, s1). split; [|done].
    apply list_elem_of_bind. exists (m2, r). split; [|done].
    by apply list_elem_of_singleton.
Qed.

Lemma elem_of_alt r1 r2 s x : x ∈ Re.alt r1 r2 s ↔ x ∈ r1 s ∨ x ∈ r2 s.
Proof. apply elem_of_app. Qed.

(** The texts the directive [%d] matches: 1 to 31 with no leading zero, or
    1 to 9 after a zero or a blank. *)
Definition day_text (d : string) : bool :=
  match d with
  | String c "" => in_range "1" "9" c
  | String c1 (String c2 "") =>
      (bool_decide (c1 = "3"%char) && in_range "0" "1" c2)
      || (in_range "1" "2" c1 && is_digit c2)
      || (bool_decide (c1 = "0"%char) && in_range "1" "9" c2)
      || (bool_decide (c1 = " "%char) && in_range "1" "9" c2)
  | _ => false
  end.

(** The texts [%m] matches: 1 to 12, or 1 to 9 after a zero. *)
Definition month_text (m : string) : bool :=
  match m with
  | String c "" => in_range "1" "9" c
  | String c1 (String c2 "") =>
      (bool_decide (c1 = "1"%char) && in_range "0" "2" c2)
      || (bool_decide (c1 = "0"%char) && in_range "1" "9" c2)
  | _ => false
  end.

(** The texts [%Y] matches: four digits. *)
Definition year_text (y : string) : bool :=
  bool_decide (String.length y = 4%nat) && all_chars is_digit y.

Lemma elem_of_re_d s d r :
  (d, r) ∈ Date.re_d s ↔ s = d +:+ r ∧ day_text d = true.
Proof.
  unfold Date.re_d. rewrite !elem_of_alt, !elem_of_seq.
  setoid_rewrite elem_of_chr. setoid_rewrite elem_of_cls. split.
  - intros [H|[H|[H|[H|H]]]].
    all: repeat match goal with
         | H : ∃ _, _ |- _ => destruct H as [? H]
         | H : _ ∧ _ |- _ => destruct H as [? ?]
         end; subst; simpl; split; try done.
    all: repeat match goal with H : _ = true |- _ => rewrite H; clear H end.
    all: by rewrite ?orb_true_r.
  - intros [-> Hd]. destruct d as [|c1 [|c2 [|c3 d]]]; simpl in Hd; try done.
    + do 3 right. left. eauto.
    + repeat match goal with
         | H : _ || _ = true |- _ => apply orb_prop in H as [H|H]
         | H : _ && _ = true |- _ => apply andb_prop in H as [? ?]
         | H : bool_decide _ = true |- _ => apply bool_decide_eq_true in H; subst
         end.
      * left. exists "3", (String c2 r), (String c2 ""). eauto 10.
      * right; left. exists (String c1 ""), (String c2 r), (String c2 ""). eauto 10.
      * do 2 right; left. exists "0", (String c2 r), (String c2 ""). eauto 10.
      * do 4 right. exists " ", (String c2 r), (String c2 ""). eauto 10.
Qed.

Lemma elem_of_re_m s m r :
  (m, r) ∈ Date.re_m s ↔ s = m +:+ r ∧ month_text m = true.
Proof.
  unfold Date.re_m. rewrite !elem_of_alt, !elem_of_seq.
  setoid_rewrite elem_of_chr. setoid_rewrite elem_of_cls. split.
  - intros [H|[H|H]].
    all: repeat match goal with
         | H : ∃ _, _ |- _ => destruct H as [? H]
         | H : _ ∧ _ |- _ => destruct H as [? ?]
         end; subst; simpl; split; try done.
    all: repeat match goal with H : _ = true |- _ => rewrite H; clear H end.
    all: by rewrite ?orb_true_r.
  - intros [-> Hd]. destruct m as [|c1 [|c2 [|c3 d]]]; simpl in Hd; try done.
    + do 2 right. eauto.
    + repeat match goal with
         | H : _ || _ = true |- _ => apply orb_prop in H as [H|H]
         | H : _ && _ = true |- _ => apply andb_prop in H as [? ?]
         | H : bool_decide _ = true |- _ => apply bool_decide_eq_true in H; subst
         end.
      * left. exists "1", (String c2 r), (String c2 ""). eauto 10.
      * right; left. exists "0", (String c2 r), (String c2 ""). eauto 10.
Qed.

Lemma elem_of_re_Y s y r :
  (y, r) ∈ Date.re_Y s ↔ s = y +:+ r ∧ year_text y = true.
Proof.
  unfold Date.re_Y, year_text. rewrite rep_cls, andb_true_iff, bool_decide_eq_true.
  split.
  - destruct (span_n 4 is_digit s) as [[m' r']|] eqn:Hs; simpl.
    + intros [= -> ->]%list_elem_of_singleton. by apply span_n_sound in Hs.
    + by intros ?%elem_of_nil.
  - intros (-> & Hl & Hall). rewrite <-Hl, span_n_complete by done. left.
Qed.

Lemma elem_of_format_regex s d m y r :
  (d, m, y, r) ∈ Date.format_regex s
  ↔ s = d +:+ "." +:+ m +:+ "." +:+ y +:+ r
    ∧ day_text d = true ∧ month_text m = true ∧ year_text y = true.
Proof.
  unfold Date.format_regex. split.
  - intros ([d' s1] & Hin & [-> Hd]%elem_of_re_d)%list_elem_of_bind.
    apply list_elem_of_bind in Hin as ([? s2] & Hin & [-> _]%elem_of_chr).
    apply list_elem_of_bind in Hin as ([m' s3] & Hin & [-> Hm]%elem_of_re_m).
    apply list_elem_of_bind in Hin as ([? s4] & Hin & [-> _]%elem_of_chr).
    apply list_elem_of_bind in Hin as ([y' s5] & Hin & [-> Hy]%elem_of_re_Y).
    apply list_elem_of_singleton in Hin as [= -> -> -> ->]. done.
  - intros (-> & Hd & Hm & Hy).
    apply list_elem_of_bind. exists (d, "." +:+ m +:+ "." +:+ y +:+ r).
    split; [|by apply elem_of_re_d].
    apply list_elem_of_bind. exists (".", m +:+ "." +:+ y +:+ r).
    split; [|by apply elem_of_chr].
    apply list_elem_of_bind. exists (m, "." +:+ y +:+ r).
    split; [|by apply elem_of_re_m].
    apply list_elem_of_bind. exists (".", y +:+ r).
    split; [|by apply elem_of_chr].
    apply list_elem_of_bind. exists (y, r).
    split; [|by apply elem_of_re_Y]. left.
Qed.

(** The fields hold no dot, so a text splits into them in one way only. *)
Definition no_dot (s : string) : bool :=
  all_chars (λ c, negb (bool_decide (c = "."%char))) s.

Lemma dot_split_inj d : ∀ d' t t',
  no_dot d = true → no_dot d' = true →
  d +:+ String "." t = d' +:+ String "." t' → d = d' ∧ t = t'.
Proof.
  unfold no_dot. induction d as [|c d IH]; intros [|c' d'] t t'; simpl.
  - by intros _ _ [= ->].
  - rewrite append_cons. intros _ [Hc _]%andb_prop [= <- _].
    by rewrite bool_decide_eq_true_2 in Hc.
  - rewrite append_cons. intros [Hc _]%andb_prop _ [= -> _].
    by rewrite bool_decide_eq_true_2 in Hc.
  - rewrite !append_cons. intros [_ Hd]%andb_prop [_ Hd']%andb_prop [= -> Heq].
    by destruct (IH _ _ _ Hd Hd' Heq) as [-> ->].
Qed.

Lemma in_range_not_dot lo hi c :
  in_range lo hi c = true → in_range lo hi "." = false →
  negb (bool_decide (c = "."%char)) = true.
Proof. intros H1 H2. case_bool_decide; [congruence|done]. Qed.

Lemma chr_not_dot (c0 c : ascii) :
  bool_decide (c = c0) = true → c0 ≠ "."%char →
  negb (bool_decide (c = "."%char)) = true.
Proof. intros ->%bool_decide_eq_true ?. by rewrite bool_decide_eq_false_2. Qed.

Ltac split_bools :=
  repeat match goal with
         | H : _ || _ = true |- _ => apply orb_prop in H as [H|H]
         | H : _ && _ = true |- _ => apply andb_prop in H as [? ?]
         end.

Ltac not_dot :=
  repeat match goal with
         | H : in_range _ _ ?c = true |- context [bool_decide (?c = _)] =>
             rewrite (in_range_not_dot _ _ c H) by reflexivity
         | H : is_digit ?c = true |- context [bool_decide (?c = _)] =>
             rewrite (in_range_not_dot _ _ c H) by reflexivity
         | H : bool_decide (?c = _) = true |- context [bool_decide (?c = _)] =>
             rewrite (chr_not_dot _ c H) by discriminate
         end.

Lemma day_text_no_dot d : day_text d = true → no_dot d = true.
Proof.
  destruct d as [|c1 [|c2 [|? ?]]]; try done; unfold no_dot; simpl; intros H.
  all: split_bools; by not_dot.
Qed.

Lemma month_text_no_dot m : month_text m = true → no_dot m = true.
Proof.
  destruct m as [|c1 [|c2 [|? ?]]]; try done; unfold no_dot; simpl; intros H.
  all: split_bools; by not_dot.
Qed.

Lemma append_inj_length y y' r r' :
  String.length y = String.length y' → y +:+ r = y' +:+ r' → y = y' ∧ r = r'.
Proof.
  revert y'. induction y as [|c y IH]; intros [|c' y']; try done.
  rewrite !append_cons. intros [= Hl] [= -> Heq]. by destruct (IH _ Hl Heq) as [-> ->].
Qed.

Lemma format_regex_unique s x x' :
  x ∈ Date.format_regex s → x' ∈ Date.format_regex s → x = x'.
Proof.
  destruct x as [[[d m] y] r], x' as [[[d' m'] y'] r'].
  intros (-> & Hd & Hm & Hy)%elem_of_format_regex
         (Heq & Hd' & Hm' & Hy')%elem_of_format_regex.
  apply dot_split_inj in Heq as [<- Heq]; [|by apply day_text_no_dot..].
  apply dot_split_inj in Heq as [<- Heq]; [|by apply month_text_no_dot..].
  unfold year_text in Hy, Hy'.
  apply andb_prop in Hy as [Hy _], Hy' as [Hy' _].
  apply bool_decide_eq_true in Hy, Hy'.
  apply append_inj_length in Heq as [<- <-]; [done|congruence].
Qed.

(** What [strptime] accepts for the format ["%d.%m.%Y"]. *)
Theorem strptime_dmY_spec s date :
  Date.strptime_dmY s = Ok date
  ↔ ∃ d m y, s = d +:+ "." +:+ m +:+ "." +:+ y
             ∧ day_text d = true ∧ month_text m = true ∧ year_text y = true
             ∧ Date.new (int y) (int m) (int d) = Ok date.
Proof.
  unfold Date.strptime_dmY. split.
  - destruct (head (Date.format_regex s)) as [[[[d m] y] r]|] eqn:Hh; [|done].
    apply head_Some_elem_of, elem_of_format_regex in Hh as (-> & Hd & Hm & Hy).
    case_bool_decide as Hr; [|done]. subst r. simpl. intros Hnew.
    exists d, m, y. by rewrite append_empty_r.
  - intros (d & m & y & -> & Hd & Hm & Hy & Hnew).
    assert ((d, m, y, "") ∈ Date.format_regex (d +:+ "." +:+ m +:+ "." +:+ y)) as Hin.
    { apply elem_of_format_regex. by rewrite append_empty_r. }
    destruct (head (Date.format_regex _)) as [x|] eqn:Hh.
    + apply head_Some_elem_of in Hh.
      rewrite (format_regex_unique _ _ _ Hh Hin). by rewrite bool_decide_eq_true_2.
    + apply head_None in Hh. rewrite Hh in Hin. by apply elem_of_nil in Hin.
Qed.

(** *** Digits and zero-padded numbers *)

Lemma range_check (P : Z → bool) lo len :
  forallb P (seqZ lo len) = true → ∀ n, lo ≤ n < lo + len → P n = true.
Proof.
  intros H n Hn. rewrite forallb_forall in H. apply H.
  apply list_elem_of_In, elem_of_seqZ. lia.
Qed.

Lemma digit_chr_spec k :
  0 ≤ k ≤ 9 → is_digit (digit_chr k) = true ∧ digit_val (digit_chr k) = k.
Proof.
  intros Hk.
  assert (is_digit (digit_chr k) && (digit_val (digit_chr k) =? k) = true) as H.
  { apply (range_check
      (λ k, is_digit (digit_chr k) && (digit_val (digit_chr k) =? k)) 0 10);
      [done|lia]. }
  apply andb_prop in H as [? ?%Z.eqb_eq]. done.
Qed.

Lemma is_digit_inv c :
  is_digit c = true → 0 ≤ digit_val c ≤ 9 ∧ digit_chr (digit_val c) = c.
Proof.
  destruct c as [[] [] [] [] [] [] [] []]; vm_compute; intros H; try done.
  all: repeat split; congruence.
Qed.

Lemma int_pad2 n : 0 ≤ n ≤ 99 → int (pad2 n) = n.
Proof.
  intros Hn. apply Z.eqb_eq.
  apply (range_check (λ n, int (pad2 n) =? n) 0 100); [done|lia].
Qed.

Lemma int_pad4 n : 0 ≤ n ≤ 9999 → int (pad4 n) = n.
Proof.
  intros Hn. apply Z.eqb_eq.
  apply (range_check (λ n, int (pad4 n) =? n) 0 10000); [by vm_compute|lia].
Qed.

Lemma day_text_pad2 n : 1 ≤ n ≤ 31 → day_text (pad2 n) = true.
Proof. intros Hn. apply (range_check (λ n, day_text (pad2 n)) 1 31); [done|lia]. Qed.

Lemma month_text_pad2 n : 1 ≤ n ≤ 12 → month_text (pad2 n) = true.
Proof. intros Hn. apply (range_check (λ n, month_text (pad2 n)) 1 12); [done|lia]. Qed.

Lemma year_text_pad4 n : 0 ≤ n ≤ 9999 → year_text (pad4 n) = true.
Proof.
  intros Hn.
  apply (range_check (λ n, year_text (pad4 n)) 0 10000); [by vm_compute|lia].
Qed.

(** From the year 1000 on, the plain decimal number has four digits. *)
Lemma decimal_pad4 n : 1000 ≤ n ≤ 9999 → decimal n = pad4 n.
Proof.
  intros Hn. apply String.eqb_eq.
  apply (range_check (λ n, String.eqb (decimal n) (pad4 n)) 1000 9000);
    [by vm_compute|lia].
Qed.

(** *** Dates *)

Lemma new_Ok y m d date :
  Date.new y m d = Ok date
  ↔ date = Date.mk y m d
    ∧ 1 ≤ y ≤ 9999 ∧ 1 ≤ m ≤ 12 ∧ 1 ≤ d ≤ Date._days_in_month y m.
Proof.
  unfold Date.new, Date._check_date_fields, Date.MINYEAR, Date.MAXYEAR.
  repeat match goal with
         | |- context [?a <=? ?b] => destruct (Z.leb_spec a b); simpl
         end; split; try done; try (intros [= <-]; split; [done|lia]);
    try (intros (-> & ?); done); intros; lia.
Qed.

Lemma days_in_month_le y m : 1 ≤ m ≤ 12 → 28 ≤ Date._days_in_month y m ≤ 31.
Proof.
  intros Hm. unfold Date._days_in_month.
  assert (m = 1 ∨ m = 2 ∨ m = 3 ∨ m = 4 ∨ m = 5 ∨ m = 6 ∨ m = 7 ∨ m = 8
          ∨ m = 9 ∨ m = 10 ∨ m = 11 ∨ m = 12) as Hc by lia.
  repeat destruct Hc as [->|Hc]; try subst m; simpl;
    try destruct (Date._is_leap y); simpl; lia.
Qed.

(** A valid date of the year 1000 or later prints as a text that reads back
    as the same date. *)
Theorem strptime_strftime (d : Date.t) :
  Date.valid d → 1000 ≤ Date.year d →
  Date.strptime_dmY (Date.strftime_dmY d) = Ok d.
Proof.
  unfold Date.valid. intros Hv Hy1000. pose proof Hv as (_ & Hy & Hm & Hd)%new_Ok.
  pose proof (days_in_month_le (Date.year d) _ Hm).
  unfold Date.strftime_dmY. rewrite decimal_pad4 by lia.
  apply strptime_dmY_spec.
  exists (pad2 (Date.day d)), (pad2 (Date.month d)), (pad4 (Date.year d)).
  rewrite day_text_pad2, month_text_pad2, year_text_pad4, !int_pad2, int_pad4 by lia.
  done.
Qed.


(** *** Texts in the strict form DD.MM.YYYY *)

(** Two digits, a dot, two digits, a dot, four digits. *)
Definition DDMMYYYY_form (s : string) : bool :=
  match s with
  | String d1 (String d2 (String p1 (String m1 (String m2 (String p2 y))))) =>
      is_digit d1 && is_digit d2 && bool_decide (p1 = "."%char)
      && is_digit m1 && is_digit m2 && bool_decide (p2 = "."%char)
      && year_text y
  | _ => false
  end.

(** The date a text in the strict form names, when it names one. *)
Definition DDMMYYYY_date (s : string) : option Date.t :=
  match s with
  | String d1 (String d2 (String _ (String m1 (String m2 (String _ y))))) =>
      if DDMMYYYY_form s then
        match Date.new (int y) (int (String m1 (String m2 "")))
                       (int (String d1 (String d2 ""))) with
        | Ok date => Some date
        | Raise _ => None
        end
      else None
  | _ => None
  end.

Lemma two_digits c1 c2 :
  is_digit c1 = true → is_digit c2 = true →
  ∃ n, 0 ≤ n ≤ 99 ∧ String c1 (String c2 "") = pad2 n.
Proof.
  intros [H1 E1]%is_digit_inv [H2 E2]%is_digit_inv.
  exists (10 * digit_val c1 + digit_val c2). split; [lia|]. unfold pad2.
  replace ((10 * digit_val c1 + digit_val c2) / 10 mod 10) with (digit_val c1) by (Z.div_mod_to_equations; lia).
  replace ((10 * digit_val c1 + digit_val c2) mod 10) with (digit_val c2) by (Z.div_mod_to_equations; lia).
  by rewrite E1, E2.
Qed.

Lemma four_digits y :
  year_text y = true → ∃ n, 0 ≤ n ≤ 9999 ∧ y = pad4 n.
Proof.
  unfold year_text. intros [Hl%bool_decide_eq_true Hall]%andb_prop.
  destruct y as [|c1 [|c2 [|c3 [|c4 [|? ?]]]]]; try done. simpl in Hall.
  repeat match goal with
         | H : _ && _ = true |- _ => apply andb_prop in H as [? ?]
         end.
  repeat match goal with
         | H : is_digit _ = true |- _ => apply is_digit_inv in H as [? ?]
         end.
  exists (1000 * digit_val c1 + 100 * digit_val c2 + 10 * digit_val c3 + digit_val c4).
  split; [lia|]. unfold pad4, pad2.
  repeat match goal with
         | |- context [digit_chr ?e] =>
             lazymatch e with
             | digit_val _ => fail
             | _ => first [ replace e with (digit_val c1) by (Z.div_mod_to_equations; lia)
                          | replace e with (digit_val c2) by (Z.div_mod_to_equations; lia)
                          | replace e with (digit_val c3) by (Z.div_mod_to_equations; lia)
                          | replace e with (digit_val c4) by (Z.div_mod_to_equations; lia) ]
             end
         end.
  congruence.
Qed.

(** A text in the strict form is two padded numbers and a padded year. *)
Lemma DDMMYYYY_form_inv s :
  DDMMYYYY_form s = true →
  ∃ a b c, 0 ≤ a ≤ 99 ∧ 0 ≤ b ≤ 99 ∧ 0 ≤ c ≤ 9999
           ∧ s = pad2 a +:+ "." +:+ pad2 b +:+ "." +:+ pad4 c.
Proof.
  destruct s as [|d1 [|d2 [|p1 [|m1 [|m2 [|p2 y]]]]]]; try done.
  unfold DDMMYYYY_form. intros H.
  repeat match goal with
         | H : _ && _ = true |- _ => apply andb_prop in H as [H ?]
         end.
  repeat match goal with
         | H : bool_decide _ = true |- _ => apply bool_decide_eq_true in H; subst
         end.
  destruct (two_digits d1 d2) as (a & ? & Ea); [done..|].
  destruct (two_digits m1 m2) as (b & ? & Eb); [done..|].
  destruct (four_digits y) as (c & ? & ->); [done|].
  exists a, b, c. repeat split; try lia.
  by rewrite <-Ea, <-Eb.
Qed.

Lemma no_dot_pad2 n : 0 ≤ n ≤ 99 → no_dot (pad2 n) = true.
Proof. intros Hn. apply (range_check (λ n, no_dot (pad2 n)) 0 100); [done|lia]. Qed.

Lemma DDMMYYYY_form_fields d1 d2 m1 m2 y :
  DDMMYYYY_form (String d1 (String d2 "") +:+ "." +:+ String m1 (String m2 "")
                 +:+ "." +:+ y)
  = is_digit d1 && is_digit d2 && is_digit m1 && is_digit m2 && year_text y.
Proof.
  change (is_digit d1 && is_digit d2 && true && is_digit m1 && is_digit m2 && true
          && year_text y
          = is_digit d1 && is_digit d2 && is_digit m1 && is_digit m2 && year_text y).
  by rewrite !andb_true_r.
Qed.

Lemma DDMMYYYY_form_pad a b c :
  0 ≤ a ≤ 99 → 0 ≤ b ≤ 99 → 0 ≤ c ≤ 9999 →
  DDMMYYYY_form (pad2 a +:+ "." +:+ pad2 b +:+ "." +:+ pad4 c) = true.
Proof.
  intros Ha Hb Hc. unfold pad2 at 1 2. rewrite DDMMYYYY_form_fields.
  rewrite year_text_pad4 by done.
  assert (∀ k, 0 ≤ k ≤ 9 → is_digit (digit_chr k) = true) as Hdig
    by (intros k Hk; by apply digit_chr_spec).
  by rewrite !Hdig by (Z.div_mod_to_equations; lia).
Qed.

Lemma DDMMYYYY_date_pad a b c :
  0 ≤ a ≤ 99 → 0 ≤ b ≤ 99 → 0 ≤ c ≤ 9999 →
  DDMMYYYY_date (pad2 a +:+ "." +:+ pad2 b +:+ "." +:+ pad4 c)
  = match Date.new c b a with Ok date => Some date | Raise _ => None end.
Proof.
  intros Ha Hb Hc. pose proof (DDMMYYYY_form_pad a b c Ha Hb Hc) as Hf.
  change (DDMMYYYY_date (pad2 a +:+ "." +:+ pad2 b +:+ "." +:+ pad4 c))
    with (if DDMMYYYY_form (pad2 a +:+ "." +:+ pad2 b +:+ "." +:+ pad4 c)
          then match Date.new (int (pad4 c)) (int (pad2 b)) (int (pad2 a)) with
               | Ok date => Some date
               | Raise _ => None
               end
          else None).
  by rewrite Hf, !int_pad2, int_pad4.
Qed.

(** On a text in the strict form, [strptime] gives the date the text names. *)
Lemma strptime_strict a b c date :
  0 ≤ a ≤ 99 → 0 ≤ b ≤ 99 → 0 ≤ c ≤ 9999 →
  Date.strptime_dmY (pad2 a +:+ "." +:+ pad2 b +:+ "." +:+ pad4 c) = Ok date
  ↔ Date.new c b a = Ok date.
Proof.
  intros Ha Hb Hc. rewrite strptime_dmY_spec. split.
  - intros (d & m & y & Heq & Hd & Hm & Hy & Hnew).
    apply dot_split_inj in Heq as [<- Heq];
      [|by apply no_dot_pad2|by apply day_text_no_dot].
    apply dot_split_inj in Heq as [<- <-];
      [|by apply no_dot_pad2|by apply month_text_no_dot].
    by rewrite !int_pad2, int_pad4 in Hnew.
  - intros Hnew. pose proof Hnew as (_ & ? & Hm & ?)%new_Ok.
    pose proof (days_in_month_le c _ Hm).
    exists (pad2 a), (pad2 b), (pad4 c).
    rewrite day_text_pad2, month_text_pad2, year_text_pad4, !int_pad2, int_pad4 by lia.
    done.
Qed.


(** *** The constructor *)

Lemma strptime_raises_ValueError s e :
  Date.strptime_dmY s = Raise e → ∃ text, e = ValueError text.
Proof.
  unfold Date.strptime_dmY. destruct (head _) as [[[[d m] y] r]|].
  - destruct (negb _); [intros ?; simplify_eq; eauto|].
    apply new_raises_ValueError.
  - intros ?; simplify_eq; eauto.
Qed.

Lemma strptime_valid s date : Date.strptime_dmY s = Ok date → Date.valid date.
Proof.
  intros (d & m & y & _ & _ & _ & _ & Hnew)%strptime_dmY_spec.
  pose proof Hnew as (-> & _)%new_Ok. done.
Qed.

Definition BIRTHDAY_FORMAT_ERROR : exn :=
  ValueError "Birthday must be in the format DD.MM.YYYY".

(** The constructor succeeds exactly when [strptime] does, with its date. *)
Lemma Birthday_init_strptime s :
  Birthday.init s
  = match Date.strptime_dmY s with
    | Ok date => Ok (Birthday.mk date)
    | Raise _ => Raise BIRTHDAY_FORMAT_ERROR
    end.
Proof.
  unfold Birthday.init, Birthday.validate.
  destruct (Date.strptime_dmY s) as [date|e] eqn:Hs; simpl; [done|].
  by apply strptime_raises_ValueError in Hs as [text ->].
Qed.

(** C5, as the code has it.  Over the texts of the model (characters below
    U+0100, where the decimal digits are 0 to 9), the constructor accepts
    exactly the texts [d.m.y] where [d] is a day as [%d] reads it (1 to 31,
    or 1 to 9 after a zero or a blank), [m] a month as [%m] reads it (1 to
    12, or 1 to 9 after a zero), [y] four digits, and the three numbers make
    a date of the calendar; every other text raises the format
    [ValueError].  Every text in the strict form DD.MM.YYYY that names a
    date is accepted.  A stored date of the year 1000 or later prints in the
    strict form DD.MM.YYYY and reads back as itself, and the print is the
    text given whenever that text was in the strict form. *)
Theorem Birthday_init_spec s :
  (∀ b, Birthday.init s = Ok b
        ↔ ∃ d m y, s = d +:+ "." +:+ m +:+ "." +:+ y
                   ∧ day_text d = true ∧ month_text m = true ∧ year_text y = true
                   ∧ Date.new (int y) (int m) (int d) = Ok (Birthday.value b))
  ∧ (∀ e, Birthday.init s = Raise e → e = BIRTHDAY_FORMAT_ERROR)
  ∧ (∀ b, Birthday.init s = Ok b → 1000 ≤ Date.year (Birthday.value b) →
          DDMMYYYY_form (Birthday.str b) = true
          ∧ Birthday.init (Birthday.str b) = Ok b
          ∧ (DDMMYYYY_form s = true → Birthday.str b = s))
  ∧ (∀ date, DDMMYYYY_date s = Some date → Birthday.init s = Ok (Birthday.mk date)).
Proof.
  rewrite Birthday_init_strptime. split; [|split; [|split]].
  - intros [date]. rewrite <-strptime_dmY_spec. simpl.
    destruct (Date.strptime_dmY s); split; intros; simplify_eq; done.
  - intros e. by destruct (Date.strptime_dmY s); intros; simplify_eq.
  - intros [date] Hs Hy1000. simpl in Hy1000.
    destruct (Date.strptime_dmY s) as [date'|] eqn:Hp; [|done].
    injection Hs as ->. unfold Birthday.str. cbn [Birthday.value].
    pose proof (strptime_valid _ _ Hp) as Hv.
    pose proof Hv as (_ & Hy & Hm & Hd)%new_Ok.
    pose proof (days_in_month_le (Date.year date) _ Hm).
    assert (Date.strftime_dmY date
            = pad2 (Date.day date) +:+ "." +:+ pad2 (Date.month date) +:+ "."
              +:+ pad4 (Date.year date)) as Hprint
      by (unfold Date.strftime_dmY; by rewrite decimal_pad4 by lia).
    split; [rewrite Hprint; apply DDMMYYYY_form_pad; lia|]. split.
    + by rewrite Birthday_init_strptime, strptime_strftime.
    + intros (a & b & c & Ha & Hb & Hc & ->)%DDMMYYYY_form_inv.
      apply strptime_strict in Hp; [|done..].
      apply new_Ok in Hp as (-> & _). simpl in *.
      unfold Date.strftime_dmY. simpl. by rewrite decimal_pad4 by lia.
  - intros date Hdate.
    destruct (DDMMYYYY_form s) eqn:Hf.
    + apply DDMMYYYY_form_inv in Hf as (a & b & c & Ha & Hb & Hc & ->).
      rewrite DDMMYYYY_date_pad in Hdate by done.
      destruct (Date.new c b a) as [date'|] eqn:Hnew; [|done].
      injection Hdate as ->. apply strptime_strict in Hnew; [|done..].
      by rewrite Hnew.
    + unfold DDMMYYYY_date in Hdate. rewrite Hf in Hdate.
      by repeat case_match.
Qed.

(** C5, the text of the claim at the input 1.1.2000: not in the strict form,
    yet accepted, and printed as another text. *)
Lemma Birthday_accepts_short_fields :
  DDMMYYYY_form "1.1.2000" = false
  ∧ Birthday.init "1.1.2000" = Ok (Birthday.mk (Date.mk 2000 1 1))
  ∧ Birthday.str (Birthday.mk (Date.mk 2000 1 1)) = "01.01.2000"
  ∧ Birthday.str (Birthday.mk (Date.mk 2000 1 1)) ≠ "1.1.2000".
Proof. repeat split. done. Qed.

Example Birthday_examples :
  Birthday.init "31.02.2020" = Raise BIRTHDAY_FORMAT_ERROR
  ∧ Birthday.init "00.01.2000" = Raise BIRTHDAY_FORMAT_ERROR
  ∧ Birthday.init "ab.01.2000" = Raise BIRTHDAY_FORMAT_ERROR
  ∧ Birthday.init "01.01.200" = Raise BIRTHDAY_FORMAT_ERROR
  ∧ Birthday.init "01.01.0000" = Raise BIRTHDAY_FORMAT_ERROR
  ∧ Birthday.init "01-01-2000" = Raise BIRTHDAY_FORMAT_ERROR
  ∧ Birthday.init "29.02.2024" = Ok (Birthday.mk (Date.mk 2024 2 29))
  ∧ Birthday.init " 7.3.1999" = Ok (Birthday.mk (Date.mk 1999 3 7)).
Proof. repeat split. Qed.


(** ** Record methods *)

Ltac run_M :=
  unfold mbind, M_bind, bind, mret, M_ret, ret, get, put, modify, lift, raise;
  simpl.

Lemma set_phones_same (self : Record_.t) :
  Record_.set_phones (Record_.phones self) self = self.
Proof. by destruct self. Qed.

Lemma set_phones_twice l l' (self : Record_.t) :
  Record_.set_phones l (Record_.set_phones l' self) = Record_.set_phones l self.
Proof. done. Qed.

(** *** [remove_phone] *)

(** What the loop of [remove_phone] leaves: a matching entry goes, and the
    entry after it is passed over without being looked at. *)
Fixpoint remove_skipping (phone : string) (l : list Phone.t) : list Phone.t :=
  match l with
  | [] => []
  | p :: l' =>
      if String.eqb (Phone.value p) phone then
        match l' with
        | [] => []
        | q :: l'' => q :: remove_skipping phone l''
        end
      else p :: remove_skipping phone l'
  end.

Definition remove_body (phone : string) : nat → Phone.t → M Record_.t unit :=
  λ i p, if String.eqb (Phone.value p) phone then Record_.phones_remove_at i else ret tt.

Lemma remove_loop phone fuel : ∀ done rest (self : Record_.t),
  Record_.phones self = done ++ rest → (length rest < fuel)%nat →
  Record_.for_phones fuel (length done) (remove_body phone) self
  = (Ok tt, Record_.set_phones (done ++ remove_skipping phone rest) self).
Proof.
  induction fuel as [|fuel IH]; intros done rest self Hp Hf; [lia|].
  simpl. run_M. rewrite Hp. destruct rest as [|p rest].
  - rewrite lookup_ge_None_2 by (rewrite length_app; simpl; lia).
    simpl. by rewrite <-Hp, set_phones_same.
  - rewrite list_lookup_middle by done. unfold remove_body at 1.
    destruct (String.eqb_spec (Phone.value p) phone) as [Heq|Hne]; simpl.
    + unfold Record_.phones_remove_at. run_M. rewrite Hp.
      replace (delete (length done) (done ++ p :: rest)) with (done ++ rest)
        by (by rewrite delete_middle).
      rewrite Heq, String.eqb_refl. destruct rest as [|q rest].
      * destruct fuel as [|fuel]; simpl; [done|]. run_M.
        rewrite lookup_ge_None_2 by (rewrite length_app; simpl; lia). done.
      * specialize (IH (done ++ [q]) rest
                      (Record_.set_phones (done ++ q :: rest) self)).
        rewrite length_app, Nat.add_1_r in IH. rewrite IH.
        -- by rewrite set_phones_twice, <-app_assoc.
        -- simpl. by rewrite <-app_assoc.
        -- simpl in Hf. lia.
    + destruct (String.eqb_spec (Phone.value p) phone) as [|_]; [done|].
      specialize (IH (done ++ [p]) rest self).
      rewrite length_app, Nat.add_1_r in IH. rewrite IH.
      * by rewrite <-app_assoc.
      * by rewrite <-app_assoc.
      * simpl in Hf. lia.
Qed.

Lemma remove_phone_unfold phone (self : Record_.t) :
  Record_.remove_phone phone self
  = Record_.for_phones (S (length (Record_.phones self))) 0 (remove_body phone) self.
Proof. reflexivity. Qed.

(** [remove_phone] never raises, and leaves [remove_skipping] of the list. *)
Theorem remove_phone_spec phone (self : Record_.t) :
  Record_.remove_phone phone self
  = (Ok tt, Record_.set_phones (remove_skipping phone (Record_.phones self)) self).
Proof.
  rewrite remove_phone_unfold.
  apply (remove_loop phone _ [] (Record_.phones self) self); [done|lia].
Qed.

(** The loop is over within the steps [remove_phone] allows it: more steps
    change nothing. *)
Lemma remove_phone_fuel phone (self : Record_.t) fuel :
  (length (Record_.phones self) < fuel)%nat →
  Record_.for_phones fuel 0 (remove_body phone) self = Record_.remove_phone phone self.
Proof.
  intros Hf. rewrite remove_phone_spec.
  by apply (remove_loop phone _ [] (Record_.phones self) self).
Qed.

(** C7.  With the same number first and last in the list, [remove_phone]
    removes both entries, where removing the first one only would leave the
    last; with the number twice in a row it removes one of the two. *)
Theorem remove_phone_removes_later_duplicate :
  Record_.remove_phone "1111111111"
    (contact "ann" ["1111111111"; "2222222222"; "1111111111"] None).2
  = (Ok tt, (contact "ann" ["2222222222"] None).2)
  ∧ Record_.remove_phone "1111111111"
      (contact "ann" ["1111111111"; "1111111111"; "2222222222"] None).2
    = (Ok tt, (contact "ann" ["1111111111"; "2222222222"] None).2).
Proof. split; reflexivity. Qed.

(** When the number is in the list once, or not at all, the loop does what
    removing the first match does. *)
Lemma remove_skipping_no_match phone l :
  Forall (λ p, Phone.value p ≠ phone) l → remove_skipping phone l = l.
Proof.
  induction 1 as [|p l Hp _ IH]; simpl; [done|].
  destruct (String.eqb_spec (Phone.value p) phone); [done|]. by rewrite IH.
Qed.

Lemma remove_skipping_single phone l1 p l2 :
  Forall (λ p, Phone.value p ≠ phone) l1 → Phone.value p = phone →
  Forall (λ p, Phone.value p ≠ phone) l2 →
  remove_skipping phone (l1 ++ p :: l2) = l1 ++ l2.
Proof.
  intros H1 Hp H2. induction H1 as [|q l1 Hq _ IH]; simpl.
  - rewrite Hp, String.eqb_refl. destruct H2 as [|q l2 Hq H2]; [done|].
    by rewrite remove_skipping_no_match.
  - destruct (String.eqb_spec (Phone.value q) phone); [done|]. by rewrite IH.
Qed.

(** *** [edit_phone] *)

Definition edit_body (old_phone new_phone : string) : nat → Phone.t → M Record_.t unit :=
  λ index phone,
    if String.eqb (Phone.value phone) old_phone then
      p ← lift (Phone.init new_phone);
      modify (λ self, Record_.set_phones (<[index := p]> (Record_.phones self)) self)
    else ret tt.

Definition matches (old_phone : string) (p : Phone.t) : bool :=
  String.eqb (Phone.value p) old_phone.

(** Every entry equal to [old_phone] becomes [p]. *)
Definition replace_all (old_phone : string) (p : Phone.t) (l : list Phone.t)
  : list Phone.t :=
  (λ q, if matches old_phone q then p else q) <$> l.

(** Only the first entry equal to [old_phone] becomes [p]. *)
Fixpoint replace_first (old_phone : string) (p : Phone.t) (l : list Phone.t)
  : list Phone.t :=
  match l with
  | [] => []
  | q :: l' => if matches old_phone q then p :: l' else q :: replace_first old_phone p l'
  end.

Lemma edit_phone_unfold old_phone new_phone (self : Record_.t) :
  Record_.edit_phone old_phone new_phone self
  = Record_.for_phones (S (length (Record_.phones self))) 0
      (edit_body old_phone new_phone) self.
Proof. reflexivity. Qed.

Lemma edit_loop_Ok old_phone new_phone p fuel : ∀ done rest (self : Record_.t),
  Phone.init new_phone = Ok p →
  Record_.phones self = done ++ rest → (length rest < fuel)%nat →
  Record_.for_phones fuel (length done) (edit_body old_phone new_phone) self
  = (Ok tt, Record_.set_phones (done ++ replace_all old_phone p rest) self).
Proof.
  intros done rest self Hinit. revert done rest self.
  induction fuel as [|fuel IH]; intros done rest self Hp Hf; [lia|].
  simpl. run_M. rewrite Hp. destruct rest as [|q rest].
  - rewrite lookup_ge_None_2 by (rewrite length_app; simpl; lia).
    simpl. by rewrite <-Hp, set_phones_same.
  - rewrite list_lookup_middle by done. unfold edit_body at 1.
    unfold replace_all, matches. simpl.
    destruct (String.eqb_spec (Phone.value q) old_phone) as [Heq|Hne]; simpl.
    + run_M. rewrite Hinit, Hp.
      replace (<[length done:=p]> (done ++ q :: rest)) with (done ++ p :: rest)
        by (by rewrite insert_app_r_alt, Nat.sub_diag by lia).
      specialize (IH (done ++ [p]) rest
                    (Record_.set_phones (done ++ p :: rest) self)).
      rewrite length_app, Nat.add_1_r in IH. rewrite IH.
      * by rewrite set_phones_twice, <-app_assoc.
      * simpl. by rewrite <-app_assoc.
      * simpl in Hf. lia.
    + specialize (IH (done ++ [q]) rest self).
      rewrite length_app, Nat.add_1_r in IH. rewrite IH.
      * by rewrite <-app_assoc.
      * by rewrite <-app_assoc.
      * simpl in Hf. lia.
Qed.

Lemma edit_loop_Raise old_phone new_phone e fuel : ∀ done rest (self : Record_.t),
  Phone.init new_phone = Raise e →
  Record_.phones self = done ++ rest → (length rest < fuel)%nat →
  Record_.for_phones fuel (length done) (edit_body old_phone new_phone) self
  = (if existsb (matches old_phone) rest then Raise e else Ok tt, self).
Proof.
  intros done rest self Hinit. revert done rest self.
  induction fuel as [|fuel IH]; intros done rest self Hp Hf; [lia|].
  simpl. run_M. rewrite Hp. destruct rest as [|q rest].
  - rewrite lookup_ge_None_2 by (rewrite length_app; simpl; lia). done.
  - rewrite list_lookup_middle by done. unfold edit_body at 1, matches. simpl.
    destruct (String.eqb_spec (Phone.value q) old_phone) as [Heq|Hne]; simpl.
    + run_M. by rewrite Hinit.
    + specialize (IH (done ++ [q]) rest self).
      rewrite length_app, Nat.add_1_r in IH. rewrite IH; [done| |simpl in Hf; lia].
      by rewrite <-app_assoc.
Qed.

Lemma existsb_matches_false old_phone l :
  Forall (λ q, Phone.value q ≠ old_phone) l → existsb (matches old_phone) l = false.
Proof.
  induction 1 as [|q l Hq _ IH]; simpl; [done|]. unfold matches at 1.
  by destruct (String.eqb_spec (Phone.value q) old_phone).
Qed.

Lemma existsb_matches_true old_phone l :
  Exists (λ q, Phone.value q = old_phone) l → existsb (matches old_phone) l = true.
Proof.
  induction 1 as [q l Hq|q l _ IH]; simpl.
  - unfold matches. by rewrite Hq, String.eqb_refl.
  - by rewrite IH, orb_true_r.
Qed.

Lemma replace_all_no_match old_phone p l :
  Forall (λ q, Phone.value q ≠ old_phone) l → replace_all old_phone p l = l.
Proof.
  unfold replace_all. induction 1 as [|q l Hq _ IH]; [done|].
  rewrite fmap_cons, IH. unfold matches.
  by destruct (String.eqb_spec (Phone.value q) old_phone).
Qed.

(** With one entry equal to [old_phone], replacing all is replacing the
    first. *)
Lemma replace_all_single old_phone p l1 q l2 :
  Forall (λ q, Phone.value q ≠ old_phone) l1 → Phone.value q = old_phone →
  Forall (λ q, Phone.value q ≠ old_phone) l2 →
  replace_all old_phone p (l1 ++ q :: l2) = l1 ++ p :: l2
  ∧ replace_first old_phone p (l1 ++ q :: l2) = l1 ++ p :: l2.
Proof.
  intros H1 Hq H2. split.
  - unfold replace_all. rewrite fmap_app, fmap_cons.
    fold (replace_all old_phone p l1) (replace_all old_phone p l2).
    rewrite !replace_all_no_match by done.
    unfold matches. by rewrite Hq, String.eqb_refl.
  - induction H1 as [|q1 l1 Hq1 _ IH]; simpl; unfold matches.
    + by rewrite Hq, String.eqb_refl.
    + destruct (String.eqb_spec (Phone.value q1) old_phone); [done|].
      by rewrite IH.
Qed.

(** C6, as the code has it.  [edit_phone] puts a new [Phone(new_phone)] in
    the place of every entry equal to [old_phone], the other entries staying
    as they are and where they are; a list with no such entry is left
    unchanged and nothing is raised, whatever [new_phone] is; with such an
    entry and a [new_phone] that is no phone number, the [ValueError] of the
    constructor is raised and the list is unchanged. *)
Theorem edit_phone_spec old_phone new_phone (self : Record_.t) :
  (Forall (λ q, Phone.value q ≠ old_phone) (Record_.phones self) →
   Record_.edit_phone old_phone new_phone self = (Ok tt, self))
  ∧ (Exists (λ q, Phone.value q = old_phone) (Record_.phones self) →
     ∀ p, Phone.init new_phone = Ok p →
       Record_.edit_phone old_phone new_phone self
       = (Ok tt, Record_.set_phones
                   ((λ q, if String.eqb (Phone.value q) old_phone then p else q)
                      <$> Record_.phones self) self))
  ∧ (Exists (λ q, Phone.value q = old_phone) (Record_.phones self) →
     ∀ e, Phone.init new_phone = Raise e →
       Record_.edit_phone old_phone new_phone self = (Raise e, self)).
Proof.
  rewrite edit_phone_unfold. split; [|split].
  - intros Hno. destruct (Phone.init new_phone) as [p|e] eqn:Hinit.
    + rewrite (edit_loop_Ok _ _ p _ [] (Record_.phones self)); [|done..|lia].
      simpl. by rewrite replace_all_no_match, set_phones_same.
    + rewrite (edit_loop_Raise _ _ e _ [] (Record_.phones self)); [|done..|lia].
      by rewrite existsb_matches_false.
  - intros _ p Hinit.
    by rewrite (edit_loop_Ok _ _ p _ [] (Record_.phones self)); [|done..|lia].
  - intros Hex e Hinit.
    rewrite (edit_loop_Raise _ _ e _ [] (Record_.phones self)); [|done..|lia].
    by rewrite existsb_matches_true.
Qed.

(** C6, the text of the claim on a list that holds the old number twice:
    both entries are replaced, where replacing the first one only would
    leave the second. *)
Lemma edit_phone_replaces_every_match :
  let self := (contact "ann" ["1111111111"; "2222222222"; "1111111111"] None).2 in
  Record_.edit_phone "1111111111" "3333333333" self
  = (Ok tt, (contact "ann" ["3333333333"; "2222222222"; "3333333333"] None).2)
  ∧ replace_first "1111111111" (Phone.mk "3333333333") (Record_.phones self)
    = Phone.mk <$> ["3333333333"; "2222222222"; "1111111111"]
  ∧ Record_.phones (contact "ann" ["3333333333"; "2222222222"; "3333333333"] None).2
    ≠ Phone.mk <$> ["3333333333"; "2222222222"; "1111111111"].
Proof. repeat split. done. Qed.

(** ** Persistence *)

(** A record as the methods build it under the key [key], with a birthday
    whose print reads back: it carries the key as its name, its phones
    passed [Phone.validate], its birthday is a date of the calendar of the
    year 1000 or later. *)
Definition wf_record (key : string) (record : Record_.t) : Prop :=
  Name.value (Record_.name record) = key
  ∧ Forall (λ p, Phone.validate (Phone.value p) = true) (Record_.phones record)
  ∧ ∀ b, Record_.birthday record = Some b →
         Date.valid (Birthday.value b) ∧ 1000 ≤ Date.year (Birthday.value b).

Definition wf_book (self : AddressBook.t) : Prop :=
  NoDup (Dict.keys self) ∧ Forall (λ kr, wf_record kr.1 kr.2) self.

Lemma add_phones_valid l : ∀ (self : Record_.t),
  Forall (λ v, Phone.validate v = true) l →
  AddressBook.add_phones l self
  = (Ok tt, Record_.set_phones (Record_.phones self ++ (Phone.mk <$> l)) self).
Proof.
  induction l as [|v l IH]; intros self Hl; simpl.
  - by rewrite app_nil_r, set_phones_same.
  - apply Forall_cons in Hl as [Hv Hl]. unfold Record_.add_phone, Phone.init.
    run_M. rewrite Hv. simpl. rewrite IH by done. simpl.
    by rewrite <-app_assoc.
Qed.

Lemma strftime_dmY_nonempty d : Date.strftime_dmY d ≠ "".
Proof. done. Qed.

Lemma load_entry_wf key (record : Record_.t) (self : AddressBook.t) :
  wf_record key record →
  AddressBook.load_entry key
    (File.mk (Phone.value <$> Record_.phones record)
             (Birthday.str <$> Record_.birthday record)) self
  = (Ok tt, Dict.set key record self).
Proof.
  intros (Hname & Hphones & Hb). unfold AddressBook.load_entry. simpl. run_M.
  rewrite add_phones_valid by (by apply Forall_fmap).
  simpl. rewrite <-list_fmap_compose.
  replace (Phone.mk ∘ Phone.value <$> Record_.phones record)
    with (Record_.phones record)
    by (rewrite <-(list_fmap_id (Record_.phones record)) at 1;
        apply list_fmap_ext; by intros ? []).
  destruct record as [[n] phones [b|]]; cbn [Record_.birthday Record_.name
    Record_.phones Name.value fmap option_fmap option_map] in *; subst n.
  - destruct (Hb b eq_refl) as [Hv Hy].
    rewrite bool_decide_eq_false_2 by apply strftime_dmY_nonempty.
    unfold Record_.add_birthday. run_M.
    rewrite Birthday_init_strptime. unfold Birthday.str.
    rewrite strptime_strftime by done. simpl. by destruct b.
  - done.
Qed.

(** Loading what was saved sets every key to the record it had. *)
Lemma load_entries_to_json (l : AddressBook.t) : ∀ (self : AddressBook.t),
  Forall (λ kr, wf_record kr.1 kr.2) l →
  AddressBook.load_entries (AddressBook.to_json l) self
  = (Ok tt, foldl (λ d kr, Dict.set kr.1 kr.2 d) self l).
Proof.
  induction l as [|[k r] l IH]; intros self Hl; simpl; [done|].
  apply Forall_cons in Hl as [Hr Hl]. run_M.
  rewrite load_entry_wf by done. by rewrite IH.
Qed.

Lemma foldl_set_fresh (l : AddressBook.t) : ∀ (done : AddressBook.t),
  NoDup (Dict.keys (done ++ l)) →
  foldl (λ d kr, Dict.set kr.1 kr.2 d) done l = done ++ l.
Proof.
  induction l as [|[k r] l IH]; intros done Hnd; simpl.
  - by rewrite app_nil_r.
  - rewrite Dict_set_absent.
    + rewrite IH; by rewrite <-app_assoc.
    + apply Dict_get_None. unfold Dict.keys in *. rewrite fmap_app in Hnd.
      apply NoDup_app in Hnd as (_ & Hdis & _). intros Hin.
      apply (Hdis _ Hin). left.
Qed.

Lemma foldl_set_same (l : AddressBook.t) : ∀ (self : AddressBook.t),
  NoDup (Dict.keys self) → l ⊆ self →
  foldl (λ d kr, Dict.set kr.1 kr.2 d) self l = self.
Proof.
  induction l as [|[k r] l IH]; intros self Hnd Hsub; simpl; [done|].
  rewrite Dict_set_same; [|done|apply Hsub; left].
  apply IH; [done|]. intros x Hx. apply Hsub. by right.
Qed.

(** X22.  A book of well-formed records (birthdays, where set, of the year
    1000 or later), saved (the file can be opened) and then loaded, comes
    back as it was: into an empty book, and over the book it was saved
    from. *)
Theorem save_load_roundtrip (self : AddressBook.t) (file : File.t) :
  wf_book self → (∀ text, file ≠ File.Denied text) →
  ∃ file', AddressBook.save_to_disk file self = Ok file'
           ∧ AddressBook.load_from_disk file' [] = (Ok tt, self)
           ∧ AddressBook.load_from_disk file' self = (Ok tt, self).
Proof.
  intros [Hnd Hwf] Hfile. exists (File.Content (AddressBook.to_json self)).
  split; [destruct file; try done; by destruct (Hfile text)|].
  simpl. rewrite !load_entries_to_json by done.
  by rewrite foldl_set_fresh, foldl_set_same.
Qed.

Lemma june_book_wf : wf_book june_book.
Proof.
  split; [exact june_book_NoDup|].
  repeat (apply Forall_cons_2 || apply Forall_nil_2).
  all: split; [reflexivity|split; [by repeat constructor|]].
  all: intros b Hb; simpl in Hb; simplify_eq; try (split; [reflexivity|simpl; lia]).
Defined.

Lemma save_load_roundtrip_witness :
  ∃ file', AddressBook.save_to_disk File.Missing june_book = Ok file'
           ∧ AddressBook.load_from_disk file' [] = (Ok tt, june_book)
           ∧ AddressBook.load_from_disk file' june_book = (Ok tt, june_book).
Proof.
  apply (save_load_roundtrip june_book File.Missing).
  - exact june_book_wf.
  - intros text. discriminate.
Defined.

Definition year_999_book : AddressBook.t :=
  [contact "bob" ["0501234567"] (Some (Date.mk 999 1 1))].

(** C8.  The text 01.01.0999 is an accepted birthday.  A book that holds it
    is saved with the birthday printed as 01.01.999, the year without its
    leading zero; loading that file raises the [ValueError] of [Birthday]
    and puts nothing in the book, and the command [load] after [save]
    answers with the name-and-phone message. *)
Theorem save_load_fails_below_year_1000 :
  add_birthday ["bob"; "01.01.0999"]
    (World [contact "bob" ["0501234567"] None] File.Missing monday_10_june_2024)
  = ("Added birthday 01.01.0999 for bob",
     World year_999_book File.Missing monday_10_june_2024)
  ∧ AddressBook.save_to_disk File.Missing year_999_book
    = Ok (File.Content [("bob", File.mk ["0501234567"] (Some "01.01.999"))])
  ∧ AddressBook.load_from_disk
      (File.Content [("bob", File.mk ["0501234567"] (Some "01.01.999"))]) []
    = (Raise BIRTHDAY_FORMAT_ERROR, [])
  ∧ load [] (save [] (World year_999_book File.Missing monday_10_june_2024)).2
    = (GIVE_NAME_AND_PHONE,
       World year_999_book
             (File.Content [("bob", File.mk ["0501234567"] (Some "01.01.999"))])
             monday_10_june_2024).
Proof. repeat split. Qed.

(** ** Commands *)

Lemma Dict_set_set {V} k (v v' : V) d :
  Dict.set k v (Dict.set k v' d) = Dict.set k v d.
Proof.
  induction d as [|[k0 v0] d IH]; simpl.
  - by rewrite String.eqb_refl.
  - destruct (String.eqb_spec k k0) as [->|Hne]; simpl.
    + by rewrite String.eqb_refl.
    + destruct (String.eqb_spec k k0); [done|]. by rewrite IH.
Qed.

Lemma Dict_contains_false {V} k (d : Dict.t V) :
  Dict.contains k d = false ↔ Dict.get k d = None.
Proof. unfold Dict.contains. by destruct (Dict.get k d). Qed.

(** C10.  [add] with a name that is not in the book and a text that is no
    phone number answers with the name-and-phone message, and leaves in the
    book a new record under that name, last, with no phone and no
    birthday. *)
Theorem add_invalid_phone_keeps_new_record name phone rest (w : world) :
  Dict.contains name (book w) = false → Phone.validate phone = false →
  add (name :: phone :: rest) w
  = (GIVE_NAME_AND_PHONE,
     World (book w ++ [(name, Record_.mk (Name.mk name) [] None)]) (disk w) (today w)).
Proof.
  intros Hnew Hbad. unfold add, input_error, Raw.add, arg. simpl. run_M.
  rewrite Hnew. simpl. unfold on_book, AddressBook.add_record, on_record. run_M.
  rewrite Dict_get_set, String.eqb_refl.
  unfold Record_.add_phone, Phone.init. run_M. rewrite Hbad. simpl.
  rewrite Dict_set_set, Dict_set_absent; [done|].
  by apply Dict_contains_false.
Qed.

Lemma add_invalid_phone_keeps_new_record_witness :
  add ["zoe"; "12"] (World june_book File.Missing monday_10_june_2024)
  = (GIVE_NAME_AND_PHONE,
     World (june_book ++ [("zoe", Record_.mk (Name.mk "zoe") [] None)])
           File.Missing monday_10_june_2024).
Proof.
  apply (add_invalid_phone_keeps_new_record "zoe" "12" []
           (World june_book File.Missing monday_10_june_2024)); reflexivity.
Defined.

Lemma prefix_refl s : String.prefix s s = true.
Proof.
  induction s as [|c s IH]; simpl; [done|]. by destruct (ascii_dec c c).
Qed.

Lemma contains_refl s : contains s s = true.
Proof.
  destruct s as [|c s]; [done|].
  change (String.prefix (String c s) (String c s) || contains (String c s) s = true).
  by rewrite prefix_refl.
Qed.

Lemma contains_append p t : contains t (p +:+ t) = true.
Proof.
  induction p as [|c p IH]; [apply contains_refl|].
  rewrite append_cons.
  change (String.prefix t (String c (p +:+ t)) || contains t (p +:+ t) = true).
  by rewrite IH, orb_true_r.
Qed.

Lemma Dict_set_get {V} k (v : V) d : Dict.get k d = Some v → Dict.set k v d = d.
Proof.
  induction d as [|[k0 v0] d IH]; simpl; [done|].
  destruct (String.eqb_spec k k0) as [->|Hne].
  - by intros [= ->].
  - intros. f_equal. auto.
Qed.

(** How many arguments each function asks for before it does anything. *)
Definition arities : list (handler * nat) :=
  [(Raw.add, 2%nat); (Raw.change, 2%nat); (Raw.add_birthday, 2%nat);
   (Raw.phone, 1%nat); (Raw.show_birthday, 1%nat); (Raw.unknown_command, 1%nat)].

(** The functions that look the name up and need it to be there. *)
Definition lookups : list (handler * nat) :=
  [(Raw.change, 2%nat); (Raw.add_birthday, 2%nat);
   (Raw.phone, 1%nat); (Raw.show_birthday, 1%nat)].

(** C9, as the code has it.  Whatever the wrapped function does, the
    decorated handler returns a string and the world the function left:
    the string of the function when it returned; the name-and-phone message
    for a [ValueError] and also for any [IndexError]; the not-found message
    for a [KeyError]; for every other exception a message that holds its
    text.  So: too few arguments give the name-and-phone message; a name
    that is not in the book gives the not-found message; a text that is no
    birthday gives the name-and-phone message; but asking for the phone of a
    record that has none, an [IndexError] that is none of these, gives the
    name-and-phone message too.  A file that cannot be opened for writing
    gives the message with the text of the error. *)
Theorem input_error_spec :
  (∀ (func : handler) args w,
     match func args w with
     | (Ok s, w') => input_error func args w = (s, w')
     | (Raise (ValueError _), w') | (Raise (IndexError _), w') =>
         input_error func args w = (GIVE_NAME_AND_PHONE, w')
     | (Raise (KeyError _), w') =>
         input_error func args w = (CONTACT_NOT_FOUND, w')
     | (Raise e, w') =>
         ∃ s, input_error func args w = (s, w') ∧ contains (exn_str e) s = true
     end)
  ∧ (∀ func n args w,
       (func, n) ∈ arities → (length args < n)%nat →
       input_error func args w = (GIVE_NAME_AND_PHONE, w))
  ∧ (∀ func n name args w,
       (func, n) ∈ lookups → (n ≤ length (name :: args))%nat →
       Dict.contains name (book w) = false →
       input_error func (name :: args) w = (CONTACT_NOT_FOUND, w))
  ∧ (∀ name bday args w,
       Dict.contains name (book w) = true → is_Ok (Birthday.init bday) = false →
       add_birthday (name :: bday :: args) w = (GIVE_NAME_AND_PHONE, w))
  ∧ (∀ name args record w,
       Dict.get name (book w) = Some record → Record_.phones record = [] →
       Raw.phone (name :: args) w = (Raise (IndexError "list index out of range"), w)
       ∧ phone (name :: args) w = (GIVE_NAME_AND_PHONE, w))
  ∧ (∀ args text b t,
       save args (World b (File.Denied text) t)
       = ("Unexpected error: " +:+ text, World b (File.Denied text) t)).
Proof.
  split; [|split; [|split; [|split; [|split]]]].
  - intros func args w. unfold input_error.
    destruct (func args w) as [[s|[t|t|t|t]] w']; try done.
    eexists. split; [done|]. apply contains_append.
  - intros func n args w Hin Hlen. unfold arities in Hin.
    repeat (apply elem_of_cons in Hin as [[= -> ->]|Hin]);
      [..|by apply elem_of_nil in Hin].
    all: destruct args as [|a1 [|a2 args]]; simpl in Hlen; try lia; done.
  - intros func n name args w Hin Hlen Hnew. unfold lookups in Hin.
    apply Dict_contains_false in Hnew.
    repeat (apply elem_of_cons in Hin as [[= -> ->]|Hin]);
      [..|by apply elem_of_nil in Hin].
    all: destruct args as [|a2 args]; simpl in Hlen; try lia.
    all: unfold input_error, Raw.change, Raw.add_birthday, Raw.phone,
           Raw.show_birthday, find_or_KeyError, AddressBook.find, arg; simpl;
         run_M; by rewrite Hnew.
  - intros name bday args w Hin Hbad.
    unfold add_birthday, input_error, Raw.add_birthday, find_or_KeyError,
      AddressBook.find, arg. simpl. run_M.
    unfold Dict.contains in Hin.
    destruct (Dict.get name (book w)) as [record|] eqn:Hget; [|done]. simpl.
    unfold on_book, on_record, Record_.add_birthday. run_M. rewrite Hget.
    destruct (Birthday.init bday) as [b|e] eqn:Hinit; [done|].
    rewrite Birthday_init_strptime in Hinit.
    destruct (Date.strptime_dmY bday); simplify_eq. simpl.
    rewrite Dict_set_get by done. by destruct w.
  - intros name args record w Hget Hnone.
    unfold phone, input_error, Raw.phone, find_or_KeyError, AddressBook.find,
      first_phone, arg. simpl. run_M. rewrite Hget. simpl. by rewrite Hnone.
  - intros args text b t. unfold save, input_error, Raw.save. simpl. done.
Qed.

(** C9, the text of the claim on a record without phones.  After [add] was
    given a bad number for a new name, [phone] for that name has its one
    argument, finds the contact, validates nothing, and fails on
    [record.phones[0]]; the answer is the name-and-phone message, which does
    not hold the text of the failure. *)
Lemma phone_of_record_without_phones :
  let w0 := World [] File.Missing monday_10_june_2024 in
  let w := World [("bob", Record_.mk (Name.mk "bob") [] None)] File.Missing
                 monday_10_june_2024 in
  add ["bob"; "12"] w0 = (GIVE_NAME_AND_PHONE, w)
  ∧ Dict.contains "bob" (book w) = true
  ∧ Raw.phone ["bob"] w = (Raise (IndexError "list index out of range"), w)
  ∧ phone ["bob"] w = (GIVE_NAME_AND_PHONE, w)
  ∧ contains "list index out of range" GIVE_NAME_AND_PHONE = false.
Proof. repeat split. Qed.

(** * Further properties of the program *)

(** ** The shape of the weekly result *)

(** The user would be reported under the key [k]. *)
Definition qualifies (today : Date.t) (k : string) (user : string * Birthday.t) : bool :=
  match AddressBook.occurrence today (Birthday.value user.2) with
  | Ok occ => (Date.sub_days occ today <? 7) && String.eqb (AddressBook.bucket occ) k
  | Raise _ => false
  end.

Lemma Dict_set_keys_NoDup {V} k (v : V) d :
  NoDup (Dict.keys d) → NoDup (Dict.keys (Dict.set k v d)).
Proof.
  unfold Dict.keys. induction d as [|[k0 v0] d IH]; simpl.
  - intros _. apply NoDup_singleton.
  - rewrite !NoDup_cons. intros [Hk0 Hnd].
    destruct (String.eqb_spec k k0) as [->|Hne]; simpl.
    + by rewrite NoDup_cons.
    + rewrite NoDup_cons. split; [|auto].
      intros Hin. apply Hk0. clear -Hin Hne.
      induction d as [|[k1 v1] d IH]; simpl in *.
      * apply list_elem_of_singleton in Hin. congruence.
      * destruct (String.eqb_spec k k1) as [->|]; simpl in *.
        -- apply elem_of_cons in Hin as [?|?]; [congruence|by right].
        -- apply elem_of_cons in Hin as [->|?]; [left|right; auto].
Qed.

(** The names, in the order of the users, reported under the key [k]. *)
Fixpoint names_for (today : Date.t) (k : string) (users : list (string * Birthday.t))
  : list string :=
  match users with
  | [] => []
  | u :: users' =>
      if qualifies today k u then u.1 :: names_for today k users'
      else names_for today k users'
  end.

Lemma for_users_get today users : ∀ acc res k,
  AddressBook.for_users today users acc = Ok res →
  default [] (Dict.get k res)
  = default [] (Dict.get k acc) ++ names_for today k users
  ∧ (Dict.get k res = None
     ↔ Dict.get k acc = None ∧ names_for today k users = []).
Proof.
  induction users as [|[n b] users IH]; simpl; intros acc res k Hres.
  - injection Hres as <-. rewrite app_nil_r. tauto.
  - unfold AddressBook.per_user in Hres. simpl in Hres.
    unfold qualifies. simpl.
    destruct (AddressBook.occurrence today (Birthday.value b)) as [occ|e] eqn:Hocc;
      simpl in Hres; [|done].
    destruct (Z.ltb_spec (Date.sub_days occ today) 7) as [Hlt|Hge]; simpl in Hres.
    + destruct (IH _ _ k Hres) as [IH1 IH2]. rewrite IH1, IH2. clear IH1 IH2.
      unfold AddressBook.append_to. rewrite Dict_get_set. simpl.
      rewrite (String.eqb_sym k).
      destruct (String.eqb_spec (AddressBook.bucket occ) k) as [->|Hne].
      * simpl. rewrite <-app_assoc. split; [done|].
        split; [by intros [[=] _]|]. by intros [_ [=]].
      * done.
    + by destruct (IH _ _ k Hres) as [IH1 IH2].
Qed.

Definition workdays : list string :=
  ["Monday"; "Tuesday"; "Wednesday"; "Thursday"; "Friday"].

Lemma bucket_workday occ : AddressBook.bucket occ ∈ workdays.
Proof.
  unfold AddressBook.bucket, Date.strftime_A, Date.weekday.
  pose proof (Z.mod_pos_bound (Date.toordinal occ + 6) 7 eq_refl) as Hw.
  revert Hw. generalize ((Date.toordinal occ + 6) `mod` 7). intros z Hz.
  assert (z = 0 ∨ z = 1 ∨ z = 2 ∨ z = 3 ∨ z = 4 ∨ z = 5 ∨ z = 6) as Hc by lia.
  clear Hz. unfold workdays.
  destruct Hc as [->|[->|[->|[->|[->|[->| ->]]]]]]; simpl;
    rewrite !elem_of_cons; tauto.
Qed.

(** X4.  What the weekly query returns.  Under each key are the names, in the
    order of the book, of the records whose occurrence is less than 7 days
    away and falls (a weekend day counting as Monday) on that weekday; a
    weekday with no such record is no key of the result; the keys are
    distinct, and each is one of Monday to Friday. *)
Theorem weekly_result_shape today (self : AddressBook.t) res :
  AddressBook.get_birthdays_per_week today self = Ok res →
  NoDup (Dict.keys res)
  ∧ (∀ k, Dict.get k res
          = match names_for today k (AddressBook.users_of self) with
            | [] => None
            | names => Some names
            end)
  ∧ (∀ k names, Dict.get k res = Some names → k ∈ workdays).
Proof.
  unfold AddressBook.get_birthdays_per_week. intros Hres.
  assert (∀ k, Dict.get k res
          = match names_for today k (AddressBook.users_of self) with
            | [] => None
            | names => Some names
            end) as Hget.
  { intros k. destruct (for_users_get _ _ _ _ k Hres) as [H1 H2]. simpl in *.
    destruct (Dict.get k res) as [names|] eqn:Hget; simpl in *.
    + subst names. destruct (names_for _ _ _) as [|u us] eqn:Hf; [|done].
      by destruct H2 as [_ H2]; specialize (H2 (conj eq_refl eq_refl)).
    + destruct H2 as [H2 _]. destruct (H2 eq_refl) as [_ ->]. done. }
  split; [|split; [done|]].
  - clear -Hres. assert (NoDup (Dict.keys ([] : Dict.t (list string)))) as Hnd
      by apply NoDup_nil_2.
    revert Hres Hnd. generalize ([] : Dict.t (list string)) as acc.
    induction (AddressBook.users_of self) as [|[n b] users IH]; simpl; intros acc.
    + by intros [= <-].
    + unfold AddressBook.per_user. simpl.
      destruct (AddressBook.occurrence _ _) as [occ|e]; simpl; [|done].
      destruct (_ <? 7); simpl; intros Hres Hnd; eapply IH; try done.
      by apply Dict_set_keys_NoDup.
  - intros k names Hk. pose proof (Hget k) as Hn. rewrite Hk in Hn.
    destruct names as [|name names]; [by destruct (names_for _ _ _)|].
    assert (in_bucket k name res) as Hin by (exists (name :: names); split; [done|left]).
    apply (for_users_spec _ _ _ _ Hres) in Hin
      as [Hin|(b & occ & _ & _ & _ & ->)]; [by apply in_bucket_nil in Hin|].
    apply bucket_workday.
Qed.

Lemma weekly_result_shape_witness :
  NoDup (Dict.keys [("Monday", ["ann"]); ("Wednesday", ["dan"])])
  ∧ (∀ k, Dict.get k [("Monday", ["ann"]); ("Wednesday", ["dan"])]
          = match names_for monday_10_june_2024 k (AddressBook.users_of june_book) with
            | [] => None
            | names => Some names
            end)
  ∧ (∀ k names, Dict.get k [("Monday", ["ann"]); ("Wednesday", ["dan"])] = Some names →
                k ∈ workdays).
Proof.
  apply (weekly_result_shape monday_10_june_2024 june_book). vm_compute. reflexivity.
Defined.

(** ** Dates in order *)

Definition leap_days (y : Z) : Z := if Date._is_leap y then 1 else 0.

Lemma days_before_next_year y :
  Date._days_before_year (y + 1) = Date._days_before_year y + 365 + leap_days y.
Proof.
  unfold Date._days_before_year, leap_days, Date._is_leap.
  replace (y + 1 - 1) with y by lia.
  destruct (Z.eqb_spec (y `mod` 4) 0), (Z.eqb_spec (y `mod` 100) 0),
    (Z.eqb_spec (y `mod` 400) 0); simpl; Z.div_mod_to_equations; lia.
Qed.

Lemma days_before_year_mono y y' :
  y < y' → Date._days_before_year y + 365 + leap_days y ≤ Date._days_before_year y'.
Proof.
  intros Hlt. replace y' with (y + 1 + (y' - y - 1)) by lia.
  assert (0 ≤ y' - y - 1) as Hn by lia. revert Hn.
  generalize (y' - y - 1). intros n Hn. pattern n.
  apply natlike_ind; [| |done].
  - rewrite Z.add_0_r, days_before_next_year. lia.
  - intros x Hx IH. replace (y + 1 + Z.succ x) with (y + 1 + x + 1) by lia.
    rewrite days_before_next_year. unfold leap_days in *.
    destruct (Date._is_leap (y + 1 + x)), (Date._is_leap y); lia.
Qed.

(** The day of the year of a valid date. *)
Lemma day_of_year_bounds y m d :
  1 ≤ m ≤ 12 → 1 ≤ d ≤ Date._days_in_month y m →
  1 ≤ Date._days_before_month y m + d ≤ 365 + leap_days y.
Proof.
  intros Hm Hd. unfold Date._days_before_month, Date._days_in_month, leap_days in *.
  assert (m = 1 ∨ m = 2 ∨ m = 3 ∨ m = 4 ∨ m = 5 ∨ m = 6 ∨ m = 7 ∨ m = 8
          ∨ m = 9 ∨ m = 10 ∨ m = 11 ∨ m = 12) as Hc by lia.
  destruct (Date._is_leap y);
    repeat destruct Hc as [->|Hc]; try subst m; simpl in *; lia.
Qed.

Lemma days_before_month_mono y m m' d :
  1 ≤ m → m < m' → m' ≤ 12 → d ≤ Date._days_in_month y m →
  Date._days_before_month y m + d ≤ Date._days_before_month y m'.
Proof.
  intros H1 Hlt H12 Hd.
  unfold Date._days_before_month, Date._days_in_month in *.
  assert (m = 1 ∨ m = 2 ∨ m = 3 ∨ m = 4 ∨ m = 5 ∨ m = 6 ∨ m = 7 ∨ m = 8
          ∨ m = 9 ∨ m = 10 ∨ m = 11) as Hc by lia.
  assert (m' = 2 ∨ m' = 3 ∨ m' = 4 ∨ m' = 5 ∨ m' = 6 ∨ m' = 7 ∨ m' = 8
          ∨ m' = 9 ∨ m' = 10 ∨ m' = 11 ∨ m' = 12) as Hc' by lia.
  destruct (Date._is_leap y);
    repeat destruct Hc as [->|Hc]; try subst m;
    repeat destruct Hc' as [->|Hc']; try subst m'; simpl in *; lia.
Qed.

(** [<] on dates is [<] on their ordinals. *)
Lemma lt_toordinal (a b : Date.t) :
  Date.valid a → Date.valid b →
  Date.lt a b = true → Date.toordinal a < Date.toordinal b.
Proof.
  unfold Date.valid. intros (_ & Hya & Hma & Hda)%new_Ok (_ & Hyb & Hmb & Hdb)%new_Ok.
  unfold Date.lt, Date.toordinal, Date._ymd2ord.
  pose proof (day_of_year_bounds _ _ _ Hma Hda).
  pose proof (day_of_year_bounds _ _ _ Hmb Hdb).
  intros [Hy|[Hy [Hm|[Hm Hd]%andb_prop]%orb_prop]%andb_prop]%orb_prop.
  - apply Z.ltb_lt in Hy. pose proof (days_before_year_mono _ _ Hy). lia.
  - apply Z.eqb_eq in Hy. apply Z.ltb_lt in Hm. rewrite Hy in *.
    assert (Date._days_before_month (Date.year b) (Date.month a) + Date.day a
            ≤ Date._days_before_month (Date.year b) (Date.month b))
      by (apply days_before_month_mono; lia).
    lia.
  - apply Z.eqb_eq in Hy, Hm. apply Z.ltb_lt in Hd. rewrite Hy, Hm. lia.
Qed.

Lemma lt_false_toordinal (a b : Date.t) :
  Date.valid a → Date.valid b →
  Date.lt a b = false → Date.toordinal b ≤ Date.toordinal a.
Proof.
  intros Ha Hb Hlt.
  destruct (Date.lt b a) eqn:Hba; [apply lt_toordinal in Hba; [lia|done..]|].
  assert (a = b) as ->; [|done].
  destruct a as [ya ma da], b as [yb mb db]. unfold Date.lt in *. simpl in *.
  f_equal; lia.
Qed.

Lemma new_valid y m d date : Date.new y m d = Ok date → Date.valid date.
Proof. intros H. pose proof H as (-> & _)%new_Ok. done. Qed.

(** X5.  The date the query settles on keeps the month and the day of the
    birthday, is in the year of today or the next, and is never before
    today: the difference in days is not negative. *)
Theorem occurrence_not_in_past (today birthday occ : Date.t) :
  Date.valid today →
  AddressBook.occurrence today birthday = Ok occ →
  Date.month occ = Date.month birthday ∧ Date.day occ = Date.day birthday
  ∧ (Date.year occ = Date.year today ∨ Date.year occ = Date.year today + 1)
  ∧ Date.lt occ today = false
  ∧ 0 ≤ Date.sub_days occ today.
Proof.
  intros Hv. rewrite occurrence_is_spec. unfold occurrence_spec, Date.sub_days.
  destruct (Date.new (Date.year today) _ _) as [d1|] eqn:H1; [|done].
  pose proof (new_valid _ _ _ _ H1) as Hv1. apply new_Ok in H1 as (-> & _).
  destruct (Date.lt _ today) eqn:Hlt.
  - intros H2. pose proof (new_valid _ _ _ _ H2) as Hv2.
    apply new_Ok in H2 as (-> & _). simpl.
    assert (Date.lt today
              (Date.mk (Date.year today + 1) (Date.month birthday) (Date.day birthday))
            = true) as Hnext.
    { unfold Date.lt. simpl. apply orb_true_intro. left. apply Z.ltb_lt. lia. }
    pose proof (lt_toordinal _ _ Hv Hv2 Hnext).
    repeat split; [by right| |lia].
    unfold Date.lt. simpl.
    replace (Date.year today + 1 <? Date.year today) with false
      by (symmetry; apply Z.ltb_ge; lia).
    replace (Date.year today + 1 =? Date.year today) with false
      by (symmetry; apply Z.eqb_neq; lia). done.
  - intros [= <-]. simpl. pose proof (lt_false_toordinal _ _ Hv1 Hv Hlt).
    repeat split; [by left|done|lia].
Qed.

Lemma occurrence_not_in_past_witness :
  Date.month (Date.mk 2025 1 1) = Date.month (Date.mk 1985 1 1)
  ∧ Date.day (Date.mk 2025 1 1) = Date.day (Date.mk 1985 1 1)
  ∧ (Date.year (Date.mk 2025 1 1) = Date.year monday_10_june_2024
     ∨ Date.year (Date.mk 2025 1 1) = Date.year monday_10_june_2024 + 1)
  ∧ Date.lt (Date.mk 2025 1 1) monday_10_june_2024 = false
  ∧ 0 ≤ Date.sub_days (Date.mk 2025 1 1) monday_10_june_2024.
Proof.
  apply (occurrence_not_in_past monday_10_june_2024 (Date.mk 1985 1 1)
           (Date.mk 2025 1 1)); reflexivity.
Defined.

(** X6.  With no 29 February among the birthdays, and a year with a next year,
    the weekly query returns. *)
Theorem query_returns_without_leap_days today (self : AddressBook.t) :
  1 ≤ Date.year today < 9999 →
  (∀ name record b, (name, record) ∈ self → Record_.birthday record = Some b →
     Date.valid (Birthday.value b)
     ∧ ¬ (Date.month (Birthday.value b) = 2 ∧ Date.day (Birthday.value b) = 29)) →
  ∃ res, AddressBook.get_birthdays_per_week today self = Ok res.
Proof.
  intros Hy Hb. unfold AddressBook.get_birthdays_per_week. apply for_users_total.
  intros name b (record & Hin & Hbr)%elem_of_users_of.
  destruct (Hb _ _ _ Hin Hbr) as [(_ & _ & Hm & Hd)%new_Ok Hleap].
  rewrite occurrence_is_spec. unfold occurrence_spec.
  assert (∀ y, 1 ≤ y ≤ 9999 →
            Date.new y (Date.month (Birthday.value b)) (Date.day (Birthday.value b))
            = Ok (Date.mk y (Date.month (Birthday.value b)) (Date.day (Birthday.value b))))
    as Hnew.
  { intros y Hy'. apply new_Ok. split; [done|]. split; [done|]. split; [done|].
    split; [lia|]. revert Hd Hleap. unfold Date._days_in_month.
    generalize (Date.day (Birthday.value b)). intros d.
    assert (Date.month (Birthday.value b) = 2 ∨ Date.month (Birthday.value b) ≠ 2)
      as [->| Hne] by lia.
    - simpl. destruct (Date._is_leap (Date.year (Birthday.value b))),
        (Date._is_leap y); simpl; lia.
    - replace (Date.month (Birthday.value b) =? 2) with false
        by (symmetry; by apply Z.eqb_neq). simpl. lia. }
  rewrite Hnew by lia. destruct (Date.lt _ today); [|done]. by rewrite Hnew by lia.
Qed.

Lemma query_returns_without_leap_days_witness :
  ∃ res, AddressBook.get_birthdays_per_week monday_10_june_2024 june_book = Ok res.
Proof.
  apply (query_returns_without_leap_days monday_10_june_2024 june_book).
  - vm_compute. split; [discriminate|reflexivity].
  - intros name record b Hin Hb. unfold june_book in Hin.
    repeat (apply elem_of_cons in Hin as [Hin|Hin];
            [injection Hin as -> ->; simpl in Hb; simplify_eq;
             (split; [reflexivity|intros [? ?]; discriminate])|]).
    by apply elem_of_nil in Hin.
Defined.

Lemma leap_day_query_raises_witness :
  ∃ text, AddressBook.get_birthdays_per_week (Date.mk 2023 6 10) leap_book
          = Raise (ValueError text).
Proof.
  apply (leap_day_query_raises (Date.mk 2023 6 10) leap_book "leo"
           (contact "leo" ["0501234567"] (Some (Date.mk 2000 2 29))).2
           (Birthday.mk (Date.mk 2000 2 29))); try reflexivity.
  left.
Defined.

(** ** What the commands do when they succeed *)

Lemma Dict_set_keys_present {V} k (v v' : V) d :
  Dict.get k d = Some v' → Dict.keys (Dict.set k v d) = Dict.keys d.
Proof.
  unfold Dict.keys. induction d as [|[k0 v0] d IH]; simpl; [done|].
  destruct (String.eqb_spec k k0) as [->|Hne]; [done|].
  intros. simpl. f_equal. auto.
Qed.

Definition added (name phone : string) (self : AddressBook.t) : AddressBook.t :=
  match Dict.get name self with
  | Some record =>
      Dict.set name
        (Record_.set_phones (Record_.phones record ++ [Phone.mk phone]) record) self
  | None => self ++ [(name, Record_.mk (Name.mk name) [Phone.mk phone] None)]
  end.

Lemma add_run name phone rest (w : world) :
  Phone.validate phone = true →
  add (name :: phone :: rest) w
  = ("Added " +:+ name +:+ " with phone number " +:+ phone,
     World (added name phone (book w)) (disk w) (today w)).
Proof.
  intros Hok. unfold add, input_error, Raw.add, arg, added. simpl. run_M.
  unfold Dict.contains. destruct (Dict.get name (book w)) as [record|] eqn:Hget; simpl.
  - unfold on_book, on_record. run_M. rewrite Hget.
    unfold Record_.add_phone, Phone.init. run_M. by rewrite Hok.
  - unfold on_book, AddressBook.add_record, on_record. run_M.
    rewrite Dict_get_set, String.eqb_refl.
    unfold Record_.add_phone, Phone.init. run_M. rewrite Hok. simpl.
    by rewrite Dict_set_set, Dict_set_absent.
Qed.

(** X8.  [add] with a phone number that passes: a name that is not in the book
    gets a new record, last in the book, with that one phone; a name that is
    in the book keeps its record and its place, the phone going last in its
    list.  No other record changes, and the file is not touched. *)
Theorem add_valid_phone name phone rest (w : world) :
  Phone.validate phone = true →
  add (name :: phone :: rest) w
  = ("Added " +:+ name +:+ " with phone number " +:+ phone,
     World (match Dict.get name (book w) with
            | Some record =>
                Dict.set name
                  (Record_.set_phones (Record_.phones record ++ [Phone.mk phone]) record)
                  (book w)
            | None => book w ++ [(name, Record_.mk (Name.mk name) [Phone.mk phone] None)]
            end) (disk w) (today w))
  ∧ Dict.keys (book (add (name :: phone :: rest) w).2)
    = Dict.keys (book w) ++ (if Dict.contains name (book w) then [] else [name]).
Proof.
  intros Hok. rewrite add_run by done. split; [done|]. simpl.
  unfold added, Dict.contains.
  destruct (Dict.get name (book w)) as [record|] eqn:Hget.
  - by rewrite (Dict_set_keys_present _ _ record), app_nil_r.
  - unfold Dict.keys. by rewrite fmap_app.
Qed.

Lemma add_valid_phone_witness :
  add ["ann"; "0990000000"] (World june_book File.Missing monday_10_june_2024)
  = ("Added " +:+ "ann" +:+ " with phone number " +:+ "0990000000",
     World (match Dict.get "ann" june_book with
            | Some record =>
                Dict.set "ann"
                  (Record_.set_phones (Record_.phones record ++ [Phone.mk "0990000000"])
                     record) june_book
            | None => june_book
                      ++ [("ann", Record_.mk (Name.mk "ann") [Phone.mk "0990000000"] None)]
            end) File.Missing monday_10_june_2024)
  ∧ Dict.keys (book (add ["ann"; "0990000000"]
                       (World june_book File.Missing monday_10_june_2024)).2)
    = Dict.keys june_book ++ (if Dict.contains "ann" june_book then [] else ["ann"]).
Proof.
  apply (add_valid_phone "ann" "0990000000" []
           (World june_book File.Missing monday_10_june_2024)).
  reflexivity.
Defined.

(** [phone] gives the first number of the record, and changes nothing. *)
Lemma phone_run name rest (w : world) record p0 ps :
  Dict.get name (book w) = Some record → Record_.phones record = p0 :: ps →
  phone (name :: rest) w = (Phone.value p0, w).
Proof.
  intros Hget Hp. unfold phone, input_error, Raw.phone, find_or_KeyError,
    AddressBook.find, first_phone, arg. simpl. run_M. rewrite Hget. simpl.
  by rewrite Hp.
Qed.

(** X9.  [add] and then [phone]: for a new name the answer is the number just
    added; for a name that had a number already it is still the first of
    the old numbers. *)
Theorem add_then_phone name number rest rest' (w : world) :
  Phone.validate number = true →
  phone (name :: rest') (add (name :: number :: rest) w).2
  = (match Dict.get name (book w) with
     | Some record =>
         match Record_.phones record with
         | p0 :: _ => Phone.value p0
         | [] => number
         end
     | None => number
     end, (add (name :: number :: rest) w).2).
Proof.
  intros Hok. rewrite add_run by done. simpl. unfold added.
  destruct (Dict.get name (book w)) as [record|] eqn:Hget.
  - destruct (Record_.phones record) as [|p0 ps] eqn:Hp.
    + apply (phone_run name rest' _
               (Record_.set_phones ([] ++ [Phone.mk number]) record)
               (Phone.mk number) []); simpl; [|done].
      by rewrite Dict_get_set, String.eqb_refl.
    + apply (phone_run name rest' _
               (Record_.set_phones ((p0 :: ps) ++ [Phone.mk number]) record)
               p0 (ps ++ [Phone.mk number])); simpl; [|done].
      by rewrite Dict_get_set, String.eqb_refl.
  - apply (phone_run name rest' _ (Record_.mk (Name.mk name) [Phone.mk number] None)
             (Phone.mk number) []); simpl; [|done].
    rewrite <-(Dict_set_absent name _ (book w)) by done.
    by rewrite Dict_get_set, String.eqb_refl.
Qed.

Lemma add_then_phone_witness :
  phone ["ann"] (add ["ann"; "0990000000"]
                   (World june_book File.Missing monday_10_june_2024)).2
  = (match Dict.get "ann" june_book with
     | Some record =>
         match Record_.phones record with
         | p0 :: _ => Phone.value p0
         | [] => "0990000000"
         end
     | None => "0990000000"
     end, (add ["ann"; "0990000000"]
             (World june_book File.Missing monday_10_june_2024)).2).
Proof.
  apply (add_then_phone "ann" "0990000000" [] []
           (World june_book File.Missing monday_10_june_2024)).
  reflexivity.
Defined.

(** X10.  [change] with a number that passes puts it in the place of the first
    phone of the record, and of every later phone equal to that first one;
    the other phones, the other records and the file stay.  With a number
    that does not pass it answers the name-and-phone message and changes
    nothing. *)
Theorem change_first_phone name number rest (w : world) record p0 ps :
  Dict.get name (book w) = Some record → Record_.phones record = p0 :: ps →
  change (name :: number :: rest) w
  = if Phone.validate number then
      ("Changed " +:+ name +:+ "'s phone number to " +:+ number,
       World (Dict.set name
                (Record_.set_phones
                   (Phone.mk number
                    :: ((λ q, if String.eqb (Phone.value q) (Phone.value p0)
                              then Phone.mk number else q) <$> ps)) record)
                (book w)) (disk w) (today w))
    else (GIVE_NAME_AND_PHONE, w).
Proof.
  intros Hget Hp. unfold change, input_error, Raw.change, find_or_KeyError,
    AddressBook.find, first_phone, arg. simpl. run_M. rewrite Hget. simpl.
  rewrite Hp. simpl. unfold on_book, on_record. run_M. rewrite Hget.
  rewrite edit_phone_unfold.
  destruct (Phone.validate number) eqn:Hok.
  - rewrite (edit_loop_Ok _ _ (Phone.mk number) _ [] (Record_.phones record));
      [|unfold Phone.init; by rewrite Hok|done|lia].
    simpl. rewrite Hp. unfold replace_all. rewrite fmap_cons.
    unfold matches at 1. by rewrite String.eqb_refl.
  - rewrite (edit_loop_Raise _ _ (ValueError "Phone number must have 10 digits.")
               _ [] (Record_.phones record));
      [|unfold Phone.init; by rewrite Hok|done|lia].
    rewrite Hp. simpl. unfold matches at 1. rewrite String.eqb_refl. simpl.
    rewrite Dict_set_get by done. by destruct w.
Qed.

Lemma change_first_phone_witness :
  change ["ann"; "0990000000"] (World june_book File.Missing monday_10_june_2024)
  = if Phone.validate "0990000000" then
      ("Changed " +:+ "ann" +:+ "'s phone number to " +:+ "0990000000",
       World (Dict.set "ann"
                (Record_.set_phones
                   (Phone.mk "0990000000"
                    :: ((λ q, if String.eqb (Phone.value q)
                                   (Phone.value (Phone.mk "0501234567"))
                              then Phone.mk "0990000000" else q) <$> []))
                   (contact "ann" ["0501234567"] (Some (Date.mk 1990 6 15))).2)
                june_book) File.Missing monday_10_june_2024)
    else (GIVE_NAME_AND_PHONE, World june_book File.Missing monday_10_june_2024).
Proof.
  apply (change_first_phone "ann" "0990000000" []
           (World june_book File.Missing monday_10_june_2024)
           (contact "ann" ["0501234567"] (Some (Date.mk 1990 6 15))).2
           (Phone.mk "0501234567") []); reflexivity.
Defined.

(** X11.  [add-birthday] and then [show-birthday]: a contact of the book and a
    text that reads as a date give back the date as [strftime] prints it,
    day and month with two digits and the year as the plain number, which
    from the year 1000 on is the form DD.MM.YYYY; the phones stay, an
    earlier birthday is overwritten. *)
Theorem add_birthday_then_show name bday rest rest' (w : world) record date :
  Dict.get name (book w) = Some record → Date.strptime_dmY bday = Ok date →
  add_birthday (name :: bday :: rest) w
  = ("Added birthday " +:+ bday +:+ " for " +:+ name,
     World (Dict.set name (Record_.set_birthday (Birthday.mk date) record) (book w))
           (disk w) (today w))
  ∧ show_birthday (name :: rest') (add_birthday (name :: bday :: rest) w).2
    = (pad2 (Date.day date) +:+ "." +:+ pad2 (Date.month date) +:+ "."
       +:+ decimal (Date.year date),
       (add_birthday (name :: bday :: rest) w).2)
  ∧ (1000 ≤ Date.year date →
     decimal (Date.year date) = pad4 (Date.year date)
     ∧ DDMMYYYY_form (pad2 (Date.day date) +:+ "." +:+ pad2 (Date.month date) +:+ "."
                      +:+ decimal (Date.year date)) = true).
Proof.
  intros Hget Hdate.
  assert (add_birthday (name :: bday :: rest) w
  = ("Added birthday " +:+ bday +:+ " for " +:+ name,
     World (Dict.set name (Record_.set_birthday (Birthday.mk date) record) (book w))
           (disk w) (today w))) as ->.
  { unfold add_birthday, input_error, Raw.add_birthday, find_or_KeyError,
      AddressBook.find, arg. simpl. run_M. rewrite Hget. simpl.
    unfold on_book, on_record, Record_.add_birthday. run_M. rewrite Hget.
    rewrite Birthday_init_strptime, Hdate. done. }
  split; [done|]. split.
  - simpl. unfold show_birthday, input_error, Raw.show_birthday, find_or_KeyError,
      AddressBook.find, arg. simpl. run_M.
    by rewrite Dict_get_set, String.eqb_refl.
  - intros Hy. pose proof (strptime_valid _ _ Hdate) as (_ & ? & Hm & ?)%new_Ok.
    pose proof (days_in_month_le (Date.year date) _ Hm).
    rewrite decimal_pad4 by lia. split; [done|]. apply DDMMYYYY_form_pad; lia.
Qed.

Lemma add_birthday_then_show_witness :
  add_birthday ["eve"; "7.3.1999"] (World june_book File.Missing monday_10_june_2024)
  = ("Added birthday " +:+ "7.3.1999" +:+ " for " +:+ "eve",
     World (Dict.set "eve"
              (Record_.set_birthday (Birthday.mk (Date.mk 1999 3 7))
                 (contact "eve" [] None).2) june_book)
           File.Missing monday_10_june_2024)
  ∧ show_birthday ["eve"]
      (add_birthday ["eve"; "7.3.1999"]
         (World june_book File.Missing monday_10_june_2024)).2
    = (pad2 (Date.day (Date.mk 1999 3 7)) +:+ "."
       +:+ pad2 (Date.month (Date.mk 1999 3 7)) +:+ "."
       +:+ decimal (Date.year (Date.mk 1999 3 7)),
       (add_birthday ["eve"; "7.3.1999"]
          (World june_book File.Missing monday_10_june_2024)).2)
  ∧ (1000 ≤ Date.year (Date.mk 1999 3 7) →
     decimal (Date.year (Date.mk 1999 3 7)) = pad4 (Date.year (Date.mk 1999 3 7))
     ∧ DDMMYYYY_form (pad2 (Date.day (Date.mk 1999 3 7)) +:+ "."
                      +:+ pad2 (Date.month (Date.mk 1999 3 7)) +:+ "."
                      +:+ decimal (Date.year (Date.mk 1999 3 7))) = true).
Proof.
  apply (add_birthday_then_show "eve" "7.3.1999" [] []
           (World june_book File.Missing monday_10_june_2024)
           (contact "eve" [] None).2 (Date.mk 1999 3 7)); reflexivity.
Defined.

(** [show-birthday] for a record that has no birthday. *)
Lemma show_birthday_not_set name rest (w : world) record :
  Dict.get name (book w) = Some record → Record_.birthday record = None →
  show_birthday (name :: rest) w = ("Birthday not set", w).
Proof.
  intros Hget Hb. unfold show_birthday, input_error, Raw.show_birthday,
    find_or_KeyError, AddressBook.find, arg, Record_.get_birthday. simpl. run_M.
  rewrite Hget. simpl. by rewrite Hb.
Qed.

(** The commands that only read. *)
Definition readers : list handler :=
  [Raw.hello; Raw.phone; Raw.all_contacts; Raw.exit_bot; Raw.show_birthday;
   Raw.birthdays; Raw.unknown_command].

(** X12.  The commands that only read: whatever the arguments and whatever they
    answer, the book, the file and the date are as before. *)
Theorem readers_change_nothing func args (w : world) :
  func ∈ readers → (input_error func args w).2 = w.
Proof.
  unfold readers. intros Hin.
  repeat (apply elem_of_cons in Hin as [->|Hin]); [..|by apply elem_of_nil in Hin].
  - done.
  - unfold input_error, Raw.phone, find_or_KeyError, AddressBook.find, first_phone, arg.
    destruct args as [|name args]; simpl; [done|]. run_M.
    destruct (Dict.get name (book w)) as [record|]; simpl; [|done].
    by destruct (Record_.phones record).
  - unfold input_error, Raw.all_contacts. run_M. by destruct (book w).
  - done.
  - unfold input_error, Raw.show_birthday, find_or_KeyError, AddressBook.find, arg.
    destruct args as [|name args]; simpl; [done|]. run_M.
    by destruct (Dict.get name (book w)) as [record|].
  - unfold input_error, Raw.birthdays. run_M.
    destruct (AddressBook.get_birthdays_per_week (today w) (book w))
      as [[|? ?]|[]]; done.
  - unfold input_error, Raw.unknown_command, arg. by destruct args.
Qed.

Lemma readers_change_nothing_witness :
  (input_error Raw.birthdays [] (World june_book File.Missing monday_10_june_2024)).2
  = World june_book File.Missing monday_10_june_2024.
Proof.
  apply (readers_change_nothing Raw.birthdays []
           (World june_book File.Missing monday_10_june_2024)).
  unfold readers. rewrite !elem_of_cons. tauto.
Defined.

(** ** Loading *)

Lemma add_phones_invalid l : ∀ (self : Record_.t),
  Exists (λ v, Phone.validate v = false) l →
  ∃ self', AddressBook.add_phones l self
           = (Raise (ValueError "Phone number must have 10 digits."), self').
Proof.
  induction l as [|v l IH]; intros self Hex; [by apply Exists_nil in Hex|].
  simpl. unfold Record_.add_phone, Phone.init. run_M.
  destruct (Phone.validate v) eqn:Hv; simpl; [|by eauto].
  apply Exists_cons in Hex as [Hex|Hex]; [congruence|].
  destruct (IH (Record_.set_phones (Record_.phones self ++ [Phone.mk v]) self) Hex)
    as [self' ->]. eauto.
Qed.

Lemma load_entries_app l1 l2 (self : AddressBook.t) :
  AddressBook.load_entries (l1 ++ l2) self
  = match AddressBook.load_entries l1 self with
    | (Ok _, self') => AddressBook.load_entries l2 self'
    | (Raise e, self') => (Raise e, self')
    end.
Proof.
  revert self. induction l1 as [|[k e] l1 IH]; intros self; simpl; [done|].
  run_M. destruct (AddressBook.load_entry k e self) as [[[]|err] self']; [|done].
  apply IH.
Qed.

(** X13.  Loading is not all-or-nothing.  When an entry of the file holds a text
    that is no phone number, [load_from_disk] raises the [ValueError] of
    [Phone], the entries before it are in the book already, and that entry
    and the ones after it are not loaded. *)
Theorem load_stops_at_bad_entry (good : AddressBook.t) name entry rest
    (self : AddressBook.t) :
  Forall (λ kr, wf_record kr.1 kr.2) good →
  Exists (λ v, Phone.validate v = false) (File.phones entry) →
  AddressBook.load_from_disk
    (File.Content (AddressBook.to_json good ++ (name, entry) :: rest)) self
  = (Raise (ValueError "Phone number must have 10 digits."),
     foldl (λ d kr, Dict.set kr.1 kr.2 d) self good).
Proof.
  intros Hgood Hbad. simpl. rewrite load_entries_app, load_entries_to_json by done.
  simpl. run_M. unfold AddressBook.load_entry. run_M.
  destruct (add_phones_invalid _ (Record_.init name) Hbad) as [self' ->]. done.
Qed.

Lemma load_stops_at_bad_entry_witness :
  AddressBook.load_from_disk
    (File.Content (AddressBook.to_json june_book
                   ++ [("zoe", File.mk ["12"] None); ("yan", File.mk [] None)])) []
  = (Raise (ValueError "Phone number must have 10 digits."),
     foldl (λ d kr, Dict.set kr.1 kr.2 d) [] june_book).
Proof.
  apply (load_stops_at_bad_entry june_book "zoe" (File.mk ["12"] None)
           [("yan", File.mk [] None)] []).
  - exact (proj2 june_book_wf).
  - apply Exists_cons_hd. reflexivity.
Defined.

Lemma foldl_set_get (l : AddressBook.t) : ∀ (self : AddressBook.t) k,
  NoDup (Dict.keys l) →
  Dict.get k (foldl (λ d kr, Dict.set kr.1 kr.2 d) self l)
  = match Dict.get k l with
    | Some record => Some record
    | None => Dict.get k self
    end.
Proof.
  unfold Dict.keys. induction l as [|[k0 r0] l IH]; intros self k Hnd; simpl; [done|].
  apply NoDup_cons in Hnd as [Hk0 Hnd]. rewrite IH by done.
  destruct (String.eqb_spec k k0) as [->|Hne].
  - assert (Dict.get k0 l = None) as -> by (by apply Dict_get_None).
    by rewrite Dict_get_set, String.eqb_refl.
  - rewrite Dict_get_set. by destruct (String.eqb_spec k k0).
Qed.

(** X14.  Loading merges.  After a file saved from a well-formed book is loaded
    into any book, a name of the file has the record of the file, and every
    other name has what it had: nothing is removed. *)
Theorem load_merges (saved self : AddressBook.t) :
  wf_book saved →
  ∃ self', AddressBook.load_from_disk (File.Content (AddressBook.to_json saved)) self
           = (Ok tt, self')
           ∧ ∀ k, Dict.get k self'
                  = match Dict.get k saved with
                    | Some record => Some record
                    | None => Dict.get k self
                    end.
Proof.
  intros [Hnd Hwf]. eexists. split.
  - simpl. by apply load_entries_to_json.
  - intros k. by apply foldl_set_get.
Qed.

Lemma load_merges_witness :
  ∃ self', AddressBook.load_from_disk (File.Content (AddressBook.to_json june_book))
             leap_book
           = (Ok tt, self')
           ∧ ∀ k, Dict.get k self'
                  = match Dict.get k june_book with
                    | Some record => Some record
                    | None => Dict.get k leap_book
                    end.
Proof. apply (load_merges june_book leap_book). exact june_book_wf. Defined.

(** X15.  The commands [save] and [load], one after the other, on a well-formed
    book and a file that can be written: both answer that they did their
    work, the book is as it was, and the file holds the book. *)
Theorem save_then_load_commands args args' (w : world) :
  wf_book (book w) → (∀ text, disk w ≠ File.Denied text) →
  save args w
  = ("Address book saved.",
     World (book w) (File.Content (AddressBook.to_json (book w))) (today w))
  ∧ load args' (save args w).2
    = ("Address book loaded from disk.",
       World (book w) (File.Content (AddressBook.to_json (book w))) (today w)).
Proof.
  intros [Hnd Hwf] Hfile.
  assert (save args w
  = ("Address book saved.",
     World (book w) (File.Content (AddressBook.to_json (book w))) (today w))) as ->.
  { unfold save, input_error, Raw.save. run_M.
    destruct (disk w) as [|text| |] eqn:Hd; try done. by destruct (Hfile text). }
  split; [done|]. unfold load, input_error, Raw.load, on_book. run_M.
  rewrite load_entries_to_json by done. by rewrite foldl_set_same.
Qed.

Lemma save_then_load_commands_witness :
  save [] (World june_book File.Missing monday_10_june_2024)
  = ("Address book saved.",
     World june_book (File.Content (AddressBook.to_json june_book)) monday_10_june_2024)
  ∧ load [] (save [] (World june_book File.Missing monday_10_june_2024)).2
    = ("Address book loaded from disk.",
       World june_book (File.Content (AddressBook.to_json june_book))
             monday_10_june_2024).
Proof.
  apply (save_then_load_commands [] [] (World june_book File.Missing monday_10_june_2024)).
  - exact june_book_wf.
  - intros text. discriminate.
Defined.

(** ** Parsing a command line *)

(** [command.split(' ')]: the pieces between single blanks; two blanks in a
    row, or a blank at an end, give an empty piece. *)
Fixpoint split_space (s : string) : list string :=
  match s with
  | EmptyString => [""]
  | String c s' =>
      if bool_decide (c = " "%char) then "" :: split_space s'
      else match split_space s' with
           | part :: parts => String c part :: parts
           | [] => [String c ""]
           end
  end.

(** [pars_command]: the function of the table for the first piece, with the
    other pieces; or [unknown_command] with all of them. *)
Definition pars_command (command : string)
  : (list string → world → string * world) * list string :=
  let parts := split_space command in
  let first_part := hd "" parts in
  match Dict.get first_part COMMANDS with
  | Some command_function => (command_function, tail parts)
  | None => (unknown_command, parts)
  end.

(** One turn of the loop of [main] after the line is read: parse, call. *)
Definition dispatch (line : string) (w : world) : string * world :=
  let '(command, data) := pars_command line in command data w.

Lemma split_space_cons s : ∃ part parts, split_space s = part :: parts.
Proof.
  induction s as [|c s (part & parts & IH)]; simpl; [by eauto|].
  case_bool_decide; [by eauto|]. rewrite IH. eauto.
Qed.

Lemma split_space_join s : join " " (split_space s) = s.
Proof.
  induction s as [|c s IH]; [done|]. simpl. case_bool_decide as Hc.
  - subst c. destruct (split_space_cons s) as (part & parts & Hs).
    rewrite Hs in *. simpl in *.
    destruct parts; simpl in *; by rewrite <-IH.
  - destruct (split_space_cons s) as (part & parts & Hs).
    rewrite Hs in *. simpl in *. destruct parts; simpl in *; by rewrite <-IH.
Qed.

Lemma split_space_no_blank s :
  Forall (λ part, all_chars (λ c, negb (bool_decide (c = " "%char))) part = true)
         (split_space s).
Proof.
  induction s as [|c s IH]; simpl; [by repeat constructor|].
  case_bool_decide as Hc; [by constructor|].
  destruct (split_space s) as [|part parts].
  - constructor; [|constructor]. simpl. by rewrite bool_decide_eq_false_2.
  - apply Forall_cons in IH as [Hp Hps]. constructor; [|done]. simpl.
    by rewrite bool_decide_eq_false_2, Hp.
Qed.

(** X16.  The pieces of a line: there is always a first one, none holds a blank,
    and joined with blanks they are the line.  So the first piece that
    [unknown_command] echoes is always there, and a name or a number with a
    blank in it cannot be passed to a command. *)
Theorem pars_command_pieces line :
  (∃ part parts, split_space line = part :: parts)
  ∧ Forall (λ part, all_chars (λ c, negb (bool_decide (c = " "%char))) part = true)
           (split_space line)
  ∧ join " " (split_space line) = line.
Proof.
  split; [apply split_space_cons|]. split; [apply split_space_no_blank|].
  apply split_space_join.
Qed.

(** X17.  A line whose first piece is no command name is answered with that piece
    after "Unknown command: ", and nothing changes. *)
Theorem dispatch_unknown line (w : world) :
  Dict.get (hd "" (split_space line)) COMMANDS = None →
  dispatch line w = ("Unknown command: " +:+ hd "" (split_space line), w).
Proof.
  intros Hnone. unfold dispatch, pars_command. rewrite Hnone.
  destruct (split_space_cons line) as (part & parts & ->). done.
Qed.

Lemma dispatch_unknown_witness :
  dispatch "helo ann" (World june_book File.Missing monday_10_june_2024)
  = ("Unknown command: " +:+ hd "" (split_space "helo ann"),
     World june_book File.Missing monday_10_june_2024).
Proof.
  apply (dispatch_unknown "helo ann" (World june_book File.Missing monday_10_june_2024)).
  reflexivity.
Defined.

Lemma split_space_word name rest :
  all_chars (λ c, negb (bool_decide (c = " "%char))) name = true →
  split_space (name +:+ String " " rest) = name :: split_space rest.
Proof.
  induction name as [|c name IH]; [done|]. rewrite append_cons. simpl.
  intros [Hc Hn]%andb_prop. apply negb_true_iff in Hc. rewrite Hc.
  by rewrite IH.
Qed.

Lemma COMMANDS_get name :
  Dict.get name COMMANDS = input_error <$> Dict.get name RAW_COMMANDS.
Proof.
  unfold COMMANDS. induction RAW_COMMANDS as [|[k h] d IH]; simpl; [done|].
  by destruct (String.eqb name k).
Qed.

(** X18.  A line that starts with a command name runs that command on the other
    pieces. *)
Theorem dispatch_known name func rest_line (w : world) :
  Dict.get name RAW_COMMANDS = Some func →
  dispatch (name +:+ " " +:+ rest_line) w
  = input_error func (split_space rest_line) w.
Proof.
  intros Hget.
  assert (all_chars (λ c, negb (bool_decide (c = " "%char))) name = true) as Hname.
  { assert (name ∈ Dict.keys RAW_COMMANDS) as Hin.
    { destruct (decide (name ∈ Dict.keys RAW_COMMANDS)) as [|Hn]; [done|].
      apply Dict_get_None in Hn. congruence. }
    unfold RAW_COMMANDS, Dict.keys in Hin. simpl in Hin.
    repeat (apply elem_of_cons in Hin as [->|Hin]);
      [..|by apply elem_of_nil in Hin]; reflexivity. }
  unfold dispatch, pars_command.
  change (name +:+ " " +:+ rest_line) with (name +:+ String " " rest_line).
  rewrite split_space_word by done. cbv zeta. cbn [hd tail].
  by rewrite COMMANDS_get, Hget.
Qed.

Lemma dispatch_known_witness :
  dispatch ("phone" +:+ " " +:+ "ann") (World june_book File.Missing monday_10_june_2024)
  = input_error Raw.phone (split_space "ann")
      (World june_book File.Missing monday_10_june_2024).
Proof.
  apply (dispatch_known "phone" Raw.phone "ann"
           (World june_book File.Missing monday_10_june_2024)).
  reflexivity.
Defined.

(** ** More on the record methods *)

(** X2.  [remove_phone] on a list with at most one match: with the number in the
    list once, exactly that entry goes and the others stay in order; with
    the number not in the list, nothing changes.  Nothing is raised. *)
Theorem remove_phone_at_most_one phone (self : Record_.t) :
  (∀ l1 p l2, Record_.phones self = l1 ++ p :: l2 →
     Forall (λ q, Phone.value q ≠ phone) l1 → Phone.value p = phone →
     Forall (λ q, Phone.value q ≠ phone) l2 →
     Record_.remove_phone phone self = (Ok tt, Record_.set_phones (l1 ++ l2) self))
  ∧ (Forall (λ q, Phone.value q ≠ phone) (Record_.phones self) →
     Record_.remove_phone phone self = (Ok tt, self)).
Proof.
  rewrite remove_phone_unfold. split.
  - intros l1 p l2 Hp H1 Heq H2.
    rewrite (remove_loop phone _ [] (Record_.phones self) self); [|done|lia].
    simpl. by rewrite Hp, remove_skipping_single.
  - intros Hno.
    rewrite (remove_loop phone _ [] (Record_.phones self) self); [|done|lia].
    simpl. by rewrite remove_skipping_no_match, set_phones_same.
Qed.

Lemma remove_skipping_keeps_others phone l :
  filter (λ q, Phone.value q ≠ phone) (remove_skipping phone l)
  = filter (λ q, Phone.value q ≠ phone) l
  ∧ remove_skipping phone l `sublist_of` l.
Proof.
  assert (∀ n (l : list Phone.t), (length l ≤ n)%nat →
    filter (λ q, Phone.value q ≠ phone) (remove_skipping phone l)
    = filter (λ q, Phone.value q ≠ phone) l
    ∧ remove_skipping phone l `sublist_of` l) as H; [|by apply (H (length l))].
  clear l. induction n as [|n IH]; intros [|p l] Hl; simpl in *; try done; [lia|].
  destruct (String.eqb_spec (Phone.value p) phone) as [Heq|Hne].
  - rewrite (filter_cons_False _ p) by (intros ?; done).
    destruct l as [|q l]; [split; [done|apply sublist_nil_l]|].
    destruct (IH l) as [IH1 IH2]; [simpl in Hl; lia|]. split.
    + rewrite !filter_cons. destruct (decide _); by rewrite IH1.
    + apply sublist_cons. by apply sublist_skip.
  - destruct (IH l) as [IH1 IH2]; [lia|]. split.
    + rewrite !filter_cons. destruct (decide _); by rewrite IH1.
    + by apply sublist_skip.
Qed.

(** X3.  Whatever the list, [remove_phone] never raises, never touches the name
    or the birthday, keeps every phone with another value, in order, and
    adds nothing: what is left is a sublist of what was there. *)
Theorem remove_phone_keeps_others phone (self : Record_.t) :
  ∃ l, Record_.remove_phone phone self = (Ok tt, Record_.set_phones l self)
       ∧ filter (λ q, Phone.value q ≠ phone) l
         = filter (λ q, Phone.value q ≠ phone) (Record_.phones self)
       ∧ l `sublist_of` Record_.phones self.
Proof.
  exists (remove_skipping phone (Record_.phones self)). split.
  - rewrite remove_phone_unfold.
    by rewrite (remove_loop phone _ [] (Record_.phones self) self); [|done|lia].
  - apply remove_skipping_keeps_others.
Qed.

(** ** The session *)

(** [str.isspace] on the characters of the model. *)
Definition is_space (c : ascii) : bool :=
  let n := N_of_ascii c in
  (((9 <=? n) && (n <=? 13)) || ((28 <=? n) && (n <=? 32))
   || (n =? 133) || (n =? 160))%N.

Fixpoint lstrip_space (s : string) : string :=
  match s with
  | String c s' => if is_space c then lstrip_space s' else s
  | EmptyString => ""
  end.

Fixpoint rstrip_space (s : string) : string :=
  match s with
  | EmptyString => ""
  | String c s' =>
      match rstrip_space s' with
      | EmptyString => if is_space c then "" else String c ""
      | r => String c r
      end
  end.

(** [s.strip()]. *)
Definition strip (s : string) : string := rstrip_space (lstrip_space s).

(** [command == exit_bot] for the function [pars_command] found under the
    first piece: in the table only "close" and "exit" hold [exit_bot], and
    [unknown_command] is another function. *)
Definition is_exit_bot (first_part : string) : bool :=
  bool_decide (first_part ∈ ["close"; "exit"]).

(** How a run of [main] ends. *)
Inductive run : Type :=
| Exited (printed : list string) (w : world)
    (* the loop was left by [break], after the save *)
| Uncaught (printed : list string) (e : exn) (w : world)
    (* an exception left [main] *)
| InputEnded (printed : list string) (w : world).
    (* [input] found no more lines *)

(** The loop of [main] on the lines [input] will read. *)
Fixpoint main_loop (lines : list string) (printed : list string) (w : world) : run :=
  match lines with
  | [] => InputEnded printed w
  | line :: lines' =>
      let user_input := strip line in
      let '(out, w') := dispatch user_input w in
      if is_exit_bot (hd "" (split_space user_input)) then
        match AddressBook.save_to_disk (disk w') (book w') with
        | Ok file => Exited (printed ++ [out]) (World (book w') file (today w'))
        | Raise e => Uncaught (printed ++ [out]) e w'
        end
      else main_loop lines' (printed ++ [out]) w'
  end.

(** [main], started with the file and the date as they are. *)
Definition main (lines : list string) (file : File.t) (today : Date.t) : run :=
  match AddressBook.load_from_disk file [] with
  | (Ok _, book) => main_loop lines [] (World book file today)
  | (Raise e, book) => Uncaught [] e (World book file today)
  end.

Example session :
  main ["add zoe 0123456789"; "  phone zoe "; "bye"; "exit"; "add ann 0123456789"]
       File.Missing monday_10_june_2024
  = Exited ["Added zoe with phone number 0123456789"; "0123456789";
            "Unknown command: bye"; "Goodbye!"]
      (World [contact "zoe" ["0123456789"] None]
             (File.Content [("zoe", File.mk ["0123456789"] None)])
             monday_10_june_2024).
Proof. reflexivity. Qed.

(** No command changes the date; none but [save] touches the file, and
    [save] leaves it holding a book or as it was. *)
Lemma handler_frame func args (w : world) :
  func ∈ raw_handlers →
  today (input_error func args w).2 = today w
  ∧ (disk (input_error func args w).2 = disk w
     ∨ ∃ data, disk (input_error func args w).2 = File.Content data).
Proof.
  unfold raw_handlers, RAW_COMMANDS, Dict.values. simpl. intros Hin.
  repeat (apply elem_of_cons in Hin as [->|Hin]); [..|by apply elem_of_nil in Hin].
  all: unfold input_error, Raw.unknown_command, Raw.hello, Raw.add, Raw.change,
         Raw.phone, Raw.all_contacts, Raw.add_birthday, Raw.show_birthday,
         Raw.birthdays, Raw.exit_bot, Raw.save, Raw.load, find_or_KeyError,
         first_phone, arg, on_book, AddressBook.save_to_disk.
  all: run_M.
  all: repeat case_match; simplify_eq/=; eauto.
Qed.

Lemma dispatch_is_handler line (w : world) :
  ∃ func args, func ∈ raw_handlers ∧ dispatch line w = input_error func args w.
Proof.
  unfold dispatch, pars_command. rewrite COMMANDS_get.
  destruct (Dict.get _ RAW_COMMANDS) as [func|] eqn:Hget; simpl.
  - exists func, (tail (split_space line)). split; [|done].
    unfold raw_handlers, Dict.values. right.
    apply list_elem_of_fmap. eexists (_, func). split; [done|].
    by apply Dict_get_elem_of in Hget.
  - exists Raw.unknown_command, (split_space line). split; [left|done].
Qed.

Lemma dispatch_exit line (w : world) :
  is_exit_bot (hd "" (split_space line)) = true → dispatch line w = ("Goodbye!", w).
Proof.
  unfold is_exit_bot. intros Hex%bool_decide_eq_true.
  unfold dispatch, pars_command.
  apply elem_of_cons in Hex as [->|Hex];
    [|apply list_elem_of_singleton in Hex as ->]; done.
Qed.

Lemma main_loop_exit before : ∀ exit_line after printed (w : world),
  Forall (λ l, is_exit_bot (hd "" (split_space (strip l))) = false) before →
  is_exit_bot (hd "" (split_space (strip exit_line))) = true →
  (∀ text, disk w ≠ File.Denied text) →
  ∃ printed' w',
    main_loop (before ++ exit_line :: after) printed w
    = Exited (printed ++ printed' ++ ["Goodbye!"]) w'
    ∧ length printed' = length before
    ∧ disk w' = File.Content (AddressBook.to_json (book w'))
    ∧ today w' = today w.
Proof.
  induction before as [|line before IH]; intros exit_line after printed w Hb Hex Hd.
  - simpl. rewrite dispatch_exit, Hex by done.
    exists [], (World (book w) (File.Content (AddressBook.to_json (book w))) (today w)).
    destruct (disk w) as [|text| |] eqn:Hdisk; simpl; try done.
    by destruct (Hd text).
  - apply Forall_cons in Hb as [Hline Hb]. simpl.
    destruct (dispatch (strip line) w) as [out w1] eqn:Hdis. rewrite Hline.
    destruct (dispatch_is_handler (strip line) w) as (func & args & Hin & Heq).
    destruct (handler_frame func args w Hin) as [Htoday Hdisk].
    rewrite <-Heq, Hdis in Htoday, Hdisk. simpl in *.
    destruct (IH exit_line after (printed ++ [out]) w1 Hb Hex)
      as (printed' & w' & -> & Hlen & Hsaved & Ht).
    { intros text Habs. destruct Hdisk as [Hdisk|[data Hdisk]]; [|congruence].
      apply (Hd text). congruence. }
    exists (out :: printed'), w'. rewrite <-app_assoc. simpl.
    repeat split; [by rewrite Hlen|done|congruence].
Qed.

(** X19.  Leaving the program saves the book.  When the file could be loaded and
    can be written, and a line reads (blanks at its ends aside) as a first
    piece "exit" or "close", no earlier line doing so, then [main] answers
    every line up to that one, the last answer being "Goodbye!", reads no
    line after it, and ends with the file holding the book as it then is. *)
Theorem main_exit_saves before exit_line after file today0 book0 :
  AddressBook.load_from_disk file [] = (Ok tt, book0) →
  (∀ text, file ≠ File.Denied text) →
  Forall (λ l, is_exit_bot (hd "" (split_space (strip l))) = false) before →
  is_exit_bot (hd "" (split_space (strip exit_line))) = true →
  ∃ printed w,
    main (before ++ exit_line :: after) file today0 = Exited (printed ++ ["Goodbye!"]) w
    ∧ length printed = length before
    ∧ disk w = File.Content (AddressBook.to_json (book w))
    ∧ today w = today0.
Proof.
  intros Hload Hfile Hb Hex. unfold main. rewrite Hload.
  destruct (main_loop_exit before exit_line after [] (World book0 file today0)
              Hb Hex Hfile) as (printed & w & -> & ? & ? & ?).
  by exists printed, w.
Qed.

Lemma main_exit_saves_witness :
  ∃ printed w,
    main (["add zoe 0123456789"; "birthdays"] ++ " close " :: ["hello"])
         File.Missing monday_10_june_2024
    = Exited (printed ++ ["Goodbye!"]) w
    ∧ length printed = length ["add zoe 0123456789"; "birthdays"]
    ∧ disk w = File.Content (AddressBook.to_json (book w))
    ∧ today w = monday_10_june_2024.
Proof.
  apply (main_exit_saves ["add zoe 0123456789"; "birthdays"] " close " ["hello"]
           File.Missing monday_10_june_2024 []).
  - reflexivity.
  - intros text. discriminate.
  - repeat constructor.
  - reflexivity.
Defined.

(** X20.  A stored book that cannot be loaded keeps the program from starting: a
    text that is no phone number in the file makes [main] end with the
    [ValueError] before it reads a line. *)
Theorem main_stops_on_bad_file (good : AddressBook.t) name entry rest lines today0 :
  Forall (λ kr, wf_record kr.1 kr.2) good →
  Exists (λ v, Phone.validate v = false) (File.phones entry) →
  ∃ w, main lines (File.Content (AddressBook.to_json good ++ (name, entry) :: rest))
            today0
       = Uncaught [] (ValueError "Phone number must have 10 digits.") w.
Proof.
  intros Hgood Hbad. unfold main. simpl.
  rewrite load_entries_app, load_entries_to_json by done.
  simpl. run_M. unfold AddressBook.load_entry. run_M.
  destruct (add_phones_invalid _ (Record_.init name) Hbad) as [self' ->]. eauto.
Qed.

Lemma main_stops_on_bad_file_witness :
  ∃ w, main ["hello"; "exit"]
            (File.Content (AddressBook.to_json june_book
                           ++ ("zoe", File.mk ["12"] None) :: []))
            monday_10_june_2024
       = Uncaught [] (ValueError "Phone number must have 10 digits.") w.
Proof.
  apply (main_stops_on_bad_file june_book "zoe" (File.mk ["12"] None) []
           ["hello"; "exit"] monday_10_june_2024).
  - exact (proj2 june_book_wf).
  - apply Exists_cons_hd. reflexivity.
Defined.

(** ** Inserting and finding *)

(** X21.  [add_record] and then [find]: the name of the record finds the record,
    every other name finds what it found before; the keys already in the
    book keep their order, and a new name goes last. *)
Theorem add_record_then_find (record : Record_.t) (self : AddressBook.t) name :
  AddressBook.find name (AddressBook.add_record record self).2
  = (if String.eqb name (Name.value (Record_.name record)) then Some record
     else AddressBook.find name self)
  ∧ Dict.keys (AddressBook.add_record record self).2
    = Dict.keys self
      ++ (if Dict.contains (Name.value (Record_.name record)) self then []
          else [Name.value (Record_.name record)]).
Proof.
  unfold AddressBook.find, AddressBook.add_record. run_M. split.
  - apply Dict_get_set.
  - unfold Dict.contains.
    destruct (Dict.get (Name.value (Record_.name record)) self) as [old|] eqn:Hget.
    + by rewrite (Dict_set_keys_present _ _ old), app_nil_r.
    + rewrite Dict_set_absent by done. unfold Dict.keys. by rewrite fmap_app.
Qed.
